(** * OpenBoard: the state container and its utility leaves

    A shallow embedding of the client-side core of the OpenBoard
    messaging interface:

    - [src/utils/typeGuards.ts]    (content validation),
    - [src/utils/storage.ts]       (StorageManager over localStorage),
    - [src/stores/useAppStore.ts]  (the zustand store actions and selectors),
    - [src/utils/timestampUtils.ts] (date separators),
    - [src/utils/searchUtils.ts]   (highlighting),
    - [src/utils/errorHandling.ts] (error classification).

    JavaScript strings are modelled as [string]; a character is a code
    unit below 256 (ISO 8859-1), on which the ECMAScript notions of white
    space, [toLowerCase] and regular-expression case canonicalisation are
    written out.  The items of [localStorage] are a finite map keyed by
    strings; so are the own properties of the plain object [messages],
    whose inherited properties are modelled beside them. *)

From Stdlib Require Import ZArith Ascii String List Bool Lia.
From stdpp Require Import gmap strings list.

Local Open Scope string_scope.

(** ** Characters *)

Module Char.

Definition code (c : ascii) : nat := nat_of_ascii c.

Definition between (lo hi n : nat) : bool := (lo <=? n)%nat && (n <=? hi)%nat.

(** ECMAScript WhiteSpace and LineTerminator code points below 256:
    TAB, LF, VT, FF, CR, SP and NBSP. These are what [String.prototype.trim]
    strips. *)
Definition isWhiteSpace (c : ascii) : bool :=
  between 9 13 (code c) || (code c =? 32)%nat || (code c =? 160)%nat.

(** Upper-case letters of ISO 8859-1: A-Z, and the accented letters
    U+00C0..U+00DE without the multiplication sign U+00D7. *)
Definition isUpper (c : ascii) : bool :=
  between 65 90 (code c) || between 192 214 (code c) || between 216 222 (code c).

(** Lower-case letters whose upper-case form is again a single code unit
    below 256: a-z and U+00E0..U+00FE without the division sign U+00F7. *)
Definition isLowerPaired (c : ascii) : bool :=
  between 97 122 (code c) || between 224 246 (code c) || between 248 254 (code c).

(** [String.prototype.toLowerCase] on one code unit. *)
Definition toLowerCase (c : ascii) : ascii :=
  if isUpper c then ascii_of_nat (code c + 32) else c.

(** The [Canonicalize] operation of a regular expression with the [i]
    flag (and no [u] flag): upper-casing of a single code unit.  U+00DF,
    U+00B5 and U+00FF have no upper-case form below 256 and no other code
    unit below 256 shares theirs, so they stay as they are. *)
Definition canonicalize (c : ascii) : ascii :=
  if isLowerPaired c then ascii_of_nat (code c - 32) else c.

Definition eqb_i (a b : ascii) : bool :=
  Ascii.eqb (canonicalize a) (canonicalize b).

End Char.

(** ** Strings *)

Module Str.

Fixpoint toLowerCase (s : string) : string :=
  match s with
  | EmptyString => EmptyString
  | String c r => String (Char.toLowerCase c) (toLowerCase r)
  end.

Fixpoint trimStart (s : string) : string :=
  match s with
  | EmptyString => EmptyString
  | String c r => if Char.isWhiteSpace c then trimStart r else s
  end.

Fixpoint trimEnd (s : string) : string :=
  match s with
  | EmptyString => EmptyString
  | String c r =>
      match trimEnd r with
      | EmptyString => if Char.isWhiteSpace c then EmptyString else String c EmptyString
      | r' => String c r'
      end
  end.

(** [String.prototype.trim]: white space removed from both ends. *)
Definition trim (s : string) : string := trimEnd (trimStart s).

(** JavaScript truthiness of a string: the empty string is falsy. *)
Definition truthy (s : string) : bool :=
  match s with EmptyString => false | String _ _ => true end.



Fixpoint repeat (c : ascii) (n : nat) : string :=
  match n with
  | O => EmptyString
  | S k => String c (repeat c k)
  end.

Definition all_whitespace (s : string) : bool :=
  forallb Char.isWhiteSpace (list_ascii_of_string s).

(** A string that does not start with white space is left alone by
    [trimStart]. *)
Definition starts_clean (s : string) : Prop :=
  match s with
  | EmptyString => True
  | String c _ => Char.isWhiteSpace c = false
  end.

End Str.

(** ** src/utils/typeGuards.ts *)

Inductive Theme := Light | Dark | System.

Definition theme_string (t : Theme) : string :=
  match t with Light => "light" | Dark => "dark" | System => "system" end.

(** [isValidTheme] followed by the narrowing of the string to a [Theme]:
    membership in ['light', 'dark', 'system']. *)
Definition parse_theme (s : string) : option Theme :=
  if String.eqb s "light" then Some Light
  else if String.eqb s "dark" then Some Dark
  else if String.eqb s "system" then Some System
  else None.

Definition isValidTheme (s : string) : bool :=
  match parse_theme s with Some _ => true | None => false end.

Definition validateMessageContent (content : string) : bool :=
  (0 <? String.length (Str.trim content))%nat && (String.length content <=? 2000)%nat.

(** The character class [[a-z0-9-_]] of [validateChannelId]: after the
    range [0-9] the hyphen stands for itself. *)
Definition isChannelIdChar (c : ascii) : bool :=
  Char.between 97 122 (Char.code c) || Char.between 48 57 (Char.code c)
  || Ascii.eqb c "-" || Ascii.eqb c "_".

(** The character class [[a-zA-Z0-9-_]] of [validateUserId]. *)
Definition isUserIdChar (c : ascii) : bool :=
  Char.between 97 122 (Char.code c) || Char.between 65 90 (Char.code c)
  || Char.between 48 57 (Char.code c)
  || Ascii.eqb c "-" || Ascii.eqb c "_".

(** [/^[class]+$/.test(s)]: [s] is not empty and all its characters are in
    the class. *)
Definition test_class_plus (class : ascii -> bool) (s : string) : bool :=
  Str.truthy s && forallb class (list_ascii_of_string s).

Definition validateChannelId (id : string) : bool :=
  test_class_plus isChannelIdChar id
  && (2 <=? String.length id)%nat && (String.length id <=? 50)%nat.

Definition validateUserId (id : string) : bool :=
  test_class_plus isUserIdChar id
  && (2 <=? String.length id)%nat && (String.length id <=? 50)%nat.

(** ** src/utils/storage.ts: StorageManager over [localStorage] *)

Module Storage.

(** What can be thrown inside the adapter: an exception of the store
    itself (unavailable, quota exceeded, security error) or the
    [SyntaxError] of [JSON.parse]. *)
Inductive exn := StoreError | SyntaxError.

(** The browser's [localStorage]: its items, and its failure behaviour,
    given as the set of accesses (numbered from creation) that throw. *)
Record LocalStorage := mkLS {
  items : gmap string string;
  throwsAt : nat -> bool;
  accesses : nat
}.

(** The store throws on every call. *)
Definition always_throws (ls : LocalStorage) : Prop :=
  forall n, throwsAt ls n = true.

(** The store never throws. *)
Definition never_throws (ls : LocalStorage) : Prop :=
  forall n, throwsAt ls n = false.

(** Computations that use the store and may throw. *)
Definition M (A : Type) : Type := LocalStorage -> (exn + A) * LocalStorage.

Definition ret {A} (a : A) : M A := fun ls => (inr a, ls).

Definition throw {A} (e : exn) : M A := fun ls => (inl e, ls).

Definition bind {A B} (m : M A) (k : A -> M B) : M B :=
  fun ls =>
    match m ls with
    | (inl e, ls') => (inl e, ls')
    | (inr a, ls') => k a ls'
    end.

(** [try { m } catch (e) { h e }] *)
Definition try_catch {A} (m : M A) (h : exn -> M A) : M A :=
  fun ls =>
    match m ls with
    | (inl e, ls') => h e ls'
    | (inr a, ls') => (inr a, ls')
    end.

(** A computation from which no exception escapes, and which leaves the
    failure behaviour of the store as it is. *)
Definition contained {A} (m : M A) : Prop :=
  forall ls, exists a ls', m ls = (inr a, ls') /\ throwsAt ls' = throwsAt ls.

(** A computation that may throw, but does not change how the store
    fails. *)
Definition steady {A} (m : M A) : Prop :=
  forall ls, throwsAt (snd (m ls)) = throwsAt ls.

Declare Scope storage_scope.
Delimit Scope storage_scope with storage.
Notation "'let!' x ':=' m 'in' k" := (bind m (fun x => k))
  (at level 10, x name, m at level 100, k at level 200) : storage_scope.
Notation "m '>>' k" := (bind m (fun _ => k))
  (at level 65, right associativity) : storage_scope.
Local Open Scope storage_scope.

(** One call on the store: it either throws, or acts on the items. *)
Definition access {A} (f : gmap string string -> A * gmap string string) : M A :=
  fun ls =>
    let n := accesses ls in
    if throwsAt ls n
    then (inl StoreError, mkLS (items ls) (throwsAt ls) (S n))
    else let (a, it) := f (items ls) in (inr a, mkLS it (throwsAt ls) (S n)).

Definition getItem (k : string) : M (option string) :=
  access (fun it => (it !! k, it)).

Definition setItem (k v : string) : M unit :=
  access (fun it => (tt, <[k := v]> it)).

Definition removeItem (k : string) : M unit :=
  access (fun it => (tt, delete k it)).

(** The settings object, of type [Partial<StorageData>] without the theme. *)
Record Settings := mkSettings {
  settings_sidebarOpen : option bool;
  settings_lastActiveChannel : option string
}.

Definition empty_settings : Settings := mkSettings None None.

(** [{ ...current, ...settings }] *)
Definition merge (current settings : Settings) : Settings :=
  mkSettings
    (match settings_sidebarOpen settings with Some b => Some b | None => settings_sidebarOpen current end)
    (match settings_lastActiveChannel settings with
     | Some c => Some c
     | None => settings_lastActiveChannel current
     end).

(** What [getSettings] sees of a parsed JSON text: an object, read at the
    type [Partial<StorageData>], or a value that is [null] or whose
    [typeof] is not ['object']. *)
Inductive JSONValue := JObject (s : Settings) | JOther.

Definition THEME : string := "openboard-theme".
Definition SETTINGS : string := "openboard-settings".
Definition storage_test : string := "__storage_test__".

Section StorageManager.

(** [JSON.parse] ([None]: it throws a [SyntaxError]) and
    [JSON.stringify] are the platform's. *)
Variable JSON_parse : string -> option JSONValue.
Variable JSON_stringify : Settings -> string.

Definition isStorageAvailable : M bool :=
  try_catch
    (setItem storage_test storage_test >>
     removeItem storage_test >>
     ret true)
    (fun _ => ret false).

Definition getTheme : M Theme :=
  let! avail := isStorageAvailable in
  if negb avail then ret Light
  else
    let! found := try_catch
               (let! stored := getItem THEME in
                match stored with
                | Some s =>
                    if Str.truthy s
                    then ret (parse_theme s)
                    else ret None
                | None => ret None
                end)
               (fun _ => ret None) in
    match found with
    | Some t => ret t
    | None => ret Light
    end.

Definition setTheme (theme : Theme) : M unit :=
  let! avail := isStorageAvailable in
  if negb avail then ret tt
  else try_catch (setItem THEME (theme_string theme)) (fun _ => ret tt).

Definition getSettings : M Settings :=
  let! avail := isStorageAvailable in
  if negb avail then ret empty_settings
  else
    let! found := try_catch
               (let! stored := getItem SETTINGS in
                match stored with
                | Some s =>
                    if Str.truthy s
                    then match JSON_parse s with
                         | Some (JObject o) => ret (Some o)
                         | Some JOther => ret (Some empty_settings)
                         | None => throw SyntaxError
                         end
                    else ret None
                | None => ret None
                end)
               (fun _ => ret None) in
    match found with
    | Some o => ret o
    | None => ret empty_settings
    end.

Definition setSettings (settings : Settings) : M unit :=
  let! avail := isStorageAvailable in
  if negb avail then ret tt
  else
    try_catch
      (let! current := getSettings in
       setItem SETTINGS (JSON_stringify (merge current settings)))
      (fun _ => ret tt).

Definition clearAll : M unit :=
  let! avail := isStorageAvailable in
  if negb avail then ret tt
  else
    try_catch
      (removeItem THEME >> removeItem SETTINGS)
      (fun _ => ret tt).

End StorageManager.

End Storage.

(** ** src/types/index.ts *)

Inductive ChannelType := Public | Private.

Record Channel := mkChannel {
  channel_id : string;
  channel_name : string;
  channel_description : string;
  channel_type : ChannelType;
  channel_createdAt : Z;
  channel_memberCount : nat
}.

Inductive MessageType := Text | SystemMessage.

(** A [Date] is its time value, in milliseconds since the epoch; the
    messages of this system carry valid dates ([new Date()] and the parsed
    literals of the mock data), so the invalid date has no counterpart. *)
Record Message := mkMessage {
  message_id : string;
  message_channelId : string;
  message_userId : string;
  message_content : string;
  message_timestamp : Z;
  message_type : MessageType;
  message_editedAt : option Z
}.

(** [Omit<Message, 'id' | 'timestamp'>], as [addMessage] destructures it:
    [content], [userId] and [type]. *)
Record MessageData := mkMessageData {
  data_userId : string;
  data_content : string;
  data_type : MessageType
}.

(** The data fields of [AppState]. *)
Record AppState := mkAppState {
  channels : list Channel;
  activeChannelId : option string;
  messages : gmap string (list Message);
  theme : Theme;
  sidebarOpen : bool;
  searchQuery : string;
  isLoading : bool;
  error : option string
}.

(** ** src/stores/useAppStore.ts *)

Module Store.

Import Storage.
Local Open Scope storage_scope.

Definition initial_state : AppState :=
  mkAppState [] None ∅ Light true "" false None.

Definition set_error (e : option string) (st : AppState) : AppState :=
  mkAppState (channels st) (activeChannelId st) (messages st) (theme st)
             (sidebarOpen st) (searchQuery st) (isLoading st) e.

Definition set_messages (m : gmap string (list Message)) (e : option string)
    (st : AppState) : AppState :=
  mkAppState (channels st) (activeChannelId st) m (theme st)
             (sidebarOpen st) (searchQuery st) (isLoading st) e.

Definition set_theme (t : Theme) (st : AppState) : AppState :=
  mkAppState (channels st) (activeChannelId st) (messages st) t
             (sidebarOpen st) (searchQuery st) (isLoading st) (error st).

Definition set_activeChannelId (a : option string) (st : AppState) : AppState :=
  mkAppState (channels st) a (messages st) (theme st)
             (sidebarOpen st) (searchQuery st) (isLoading st) (error st).

Definition invalid_content_error : string := "Message content is invalid".

(** The names of the properties that every plain object inherits from
    [Object.prototype].  The finite map [messages] holds the own properties
    of the object [state.messages]; reading the object at a key that is not
    an own property finds, under these names, the inherited function or
    object. *)
Definition Object_prototype_keys : list string :=
  ["constructor"; "__defineGetter__"; "__defineSetter__"; "hasOwnProperty";
   "__lookupGetter__"; "__lookupSetter__"; "isPrototypeOf";
   "propertyIsEnumerable"; "toString"; "valueOf"; "__proto__";
   "toLocaleString"].

Definition inherited (key : string) : bool :=
  existsb (String.eqb key) Object_prototype_keys.

(** The value of [state.messages[channelId] || []]: an array of messages,
    or what is inherited under that name (truthy, and not iterable). *)
Inductive ChannelMessages :=
| MessageList (ms : list Message)
| InheritedValue (name : string).

(** [getChannelMessages] *)
Definition getChannelMessages (st : AppState) (channelId : string) : ChannelMessages :=
  match messages st !! channelId with
  | Some ms => MessageList ms
  | None => if inherited channelId then InheritedValue channelId else MessageList []
  end.

(** The [TypeError] of spreading a value that is not iterable. *)
Inductive TypeError := NotIterable.

(** [addMessage].  The identifier produced by [generateId] and the instant
    [new Date()] come from the environment (clock and random source); they
    are the arguments [newId] and [now].  The result is the exception that
    escapes the call, the state being left as it was, or the new state. *)
Definition addMessage (newId : string) (now : Z)
    (channelId : string) (messageData : MessageData) (st : AppState)
    : TypeError + AppState :=
  let content := data_content messageData in
  if negb (validateMessageContent content)
  then inr (set_error (Some invalid_content_error) st)
  else
    let newMessage :=
      mkMessage newId channelId (data_userId messageData) (Str.trim content)
                now (data_type messageData) None in
    match getChannelMessages st channelId with
    | MessageList channelMessages =>
        inr (set_messages
               (<[channelId := (channelMessages ++ [newMessage])%list]> (messages st))
               None st)
    | InheritedValue _ => inl NotIterable
    end.

Definition nextTheme (t : Theme) : Theme :=
  match t with
  | Light => Dark
  | Dark => System
  | System => Light
  end.

(** [toggleTheme]: the updater passed to [set] computes the new theme,
    calls [StorageManager.setTheme] and returns the patch. *)
Definition toggleTheme (st : AppState) : M AppState :=
  let newTheme := nextTheme (theme st) in
  setTheme newTheme >>
  ret (set_theme newTheme st).

Section WithPlatform.

Variable JSON_parse : string -> option JSONValue.
Variable JSON_stringify : Settings -> string.

Definition setActiveChannel (id : string) (st : AppState) : M AppState :=
  setSettings JSON_parse JSON_stringify (mkSettings None (Some id)) >>
  ret (set_activeChannelId (Some id) st).

Definition set_sidebarOpen (b : bool) (st : AppState) : AppState :=
  mkAppState (channels st) (activeChannelId st) (messages st) (theme st)
             b (searchQuery st) (isLoading st) (error st).

(** [toggleSidebar]: the updater flips the flag, hands the new value to
    [StorageManager.setSettings] and returns the patch. *)
Definition toggleSidebar (st : AppState) : M AppState :=
  let newSidebarOpen := negb (sidebarOpen st) in
  setSettings JSON_parse JSON_stringify (mkSettings (Some newSidebarOpen) None) >>
  ret (set_sidebarOpen newSidebarOpen st).

(** [initializeStore]: theme and sidebar flag are read back from the store,
    [settings.sidebarOpen ?? true]. *)
Definition initializeStore (st : AppState) : M AppState :=
  let! savedTheme := getTheme in
  let! settings := getSettings JSON_parse in
  ret (mkAppState (channels st) (activeChannelId st) (messages st) savedTheme
                  (default true (settings_sidebarOpen settings))
                  (searchQuery st) (isLoading st) (error st)).

(** The static data of [src/data/mockData.ts]. *)
Variable mockChannels : list Channel.
Variable mockMessages : gmap string (list Message).

(** [settings.lastActiveChannel || mockChannels[0]?.id || null] *)
Definition defaultActiveChannel (settings : Settings) : option string :=
  match settings_lastActiveChannel settings with
  | Some c =>
      if Str.truthy c then Some c
      else match mockChannels with
           | ch :: _ => if Str.truthy (channel_id ch) then Some (channel_id ch) else None
           | [] => None
           end
  | None =>
      match mockChannels with
      | ch :: _ => if Str.truthy (channel_id ch) then Some (channel_id ch) else None
      | [] => None
      end
  end.

Definition loadMockData (st : AppState) : M AppState :=
  let! settings := getSettings JSON_parse in
  ret (mkAppState mockChannels (defaultActiveChannel settings) mockMessages
                  (theme st) (sidebarOpen st) (searchQuery st) false (error st)).

End WithPlatform.


End Store.

(** ** src/utils/timestampUtils.ts *)

Module Timestamp.

Record DateSeparator := mkDateSeparator {
  separator_date : Z;
  separator_label : string
}.

(** [MessageItem = Message | DateSeparator] *)
Inductive MessageItem :=
| ItemMessage (m : Message)
| ItemSeparator (d : DateSeparator).

Section WithDateFns.

(** The functions of the date-fns library, on time values; [isToday] and
    [isYesterday] are relative to the clock of the call, and all of them
    to the local time zone. *)
Variable isSameDay : Z -> Z -> bool.
Variable isToday : Z -> bool.
Variable isYesterday : Z -> bool.
Variable format : Z -> string -> string.

Definition shouldShowDateSeparator
    (currentMessage : Message) (previousMessage : option Message) : bool :=
  match previousMessage with
  | None => true
  | Some previous =>
      negb (isSameDay (message_timestamp currentMessage) (message_timestamp previous))
  end.

Definition formatDateSeparator (date : Z) : string :=
  if isToday date then "Today"
  else if isYesterday date then "Yesterday"
  else format date "EEEE, MMMM d, yyyy".

(** The [for] loop of [groupMessagesByDate], from index [i] with the
    result built so far; [n] bounds the remaining iterations. *)
Fixpoint group_loop (messages : list Message) (n i : nat)
    (result : list MessageItem) : list MessageItem :=
  match n with
  | O => result
  | S n' =>
      match messages !! i with
      | None => result
      | Some currentMessage =>
          let previousMessage :=
            match i with
            | O => None
            | S j => messages !! j
            end in
          let result :=
            if shouldShowDateSeparator currentMessage previousMessage
            then result ++ [ItemSeparator
                              (mkDateSeparator
                                 (message_timestamp currentMessage)
                                 (formatDateSeparator (message_timestamp currentMessage)))]
            else result in
          group_loop messages n' (S i) (result ++ [ItemMessage currentMessage])
      end
  end%list.

Definition groupMessagesByDate (messages : list Message) : list MessageItem :=
  if (length messages =? 0)%nat then []
  else group_loop messages (length messages) 0 [].

(** The separator that announces message [m]. *)
Definition separator_of (m : Message) : MessageItem :=
  ItemSeparator
    (mkDateSeparator (message_timestamp m) (formatDateSeparator (message_timestamp m))).

(** The grouping as the specification words it: going through the
    messages in their order, a separator stands before the first one and
    before each one whose calendar day is not that of the message just
    before it. *)
Fixpoint grouped_after (previous : option Message) (ms : list Message)
    : list MessageItem :=
  match ms with
  | [] => []
  | m :: rest =>
      let here :=
        match previous with
        | None => [separator_of m]
        | Some p =>
            if isSameDay (message_timestamp m) (message_timestamp p)
            then []
            else [separator_of m]
        end in
      (here ++ ItemMessage m :: grouped_after (Some m) rest)%list
  end.

End WithDateFns.

End Timestamp.

(** ** Regular expressions, as far as the sources use them *)

Module RegExp.

Definition backslash : ascii := "092"%char.

(** The characters of the class in [escapeRegExp]: the syntax characters
    of ECMAScript patterns. *)
Definition isSyntaxCharacter (c : ascii) : bool :=
  existsb (Ascii.eqb c) (backslash :: list_ascii_of_string ".*+?^${}()|[]").

(** A pattern that is a sequence of characters to be matched one after
    the other. With the [i] flag two characters match when their
    canonical forms agree.  [match_at pat s] matches [pat] at the start of
    [s] and returns the matched text and what follows it. *)
Fixpoint match_at (pat s : string) : option (string * string) :=
  match pat with
  | EmptyString => Some (EmptyString, s)
  | String p pat' =>
      match s with
      | EmptyString => None
      | String c r =>
          if Char.eqb_i p c
          then match match_at pat' r with
               | Some (m, rest) => Some (String c m, rest)
               | None => None
               end
          else None
      end
  end.

(** [/pat/i.test(s)]: the pattern matches at some position of [s]. *)
Fixpoint test_i (pat s : string) : bool :=
  match match_at pat s with
  | Some _ => true
  | None =>
      match s with
      | EmptyString => false
      | String _ r => test_i pat r
      end
  end.

(** The body of a group, up to its closing parenthesis, which must end the
    source: pattern characters stand for themselves, a backslash before a
    syntax character is an identity escape.  [None]: the source is not of
    this shape. *)
Fixpoint parse_group_body (src : string) : option string :=
  match src with
  | EmptyString => None
  | String c r =>
      if Ascii.eqb c ")"
      then match r with EmptyString => Some EmptyString | _ => None end
      else if Ascii.eqb c backslash
      then match r with
           | String d r' =>
               if isSyntaxCharacter d
               then option_map (String d) (parse_group_body r')
               else None
           | EmptyString => None
           end
      else if isSyntaxCharacter c then None
      else option_map (String c) (parse_group_body r)
  end.

(** [new RegExp(src, 'gi')] for a source that is one capture group around
    a sequence of characters: the sequence. *)
Definition compile_group (src : string) : option string :=
  match src with
  | String c r => if Ascii.eqb c "(" then parse_group_body r else None
  | EmptyString => None
  end.

(** [s.replace(re, replacement)] for such a global expression, where
    [wrap m] is the replacement text for the match [m] (the text of
    capture 1).  [skip] counts the characters of [s] that belong to the
    match just replaced.  An empty match is replaced and the scan moves one
    character on. *)
Fixpoint replace_loop (pat : string) (wrap : string -> string)
    (skip : nat) (s : string) : string :=
  match s with
  | EmptyString =>
      match match_at pat EmptyString with
      | Some (m, _) => wrap m
      | None => EmptyString
      end
  | String c r =>
      match skip with
      | S k => replace_loop pat wrap k r
      | O =>
          match match_at pat s with
          | Some (EmptyString, _) => wrap EmptyString ++ String c (replace_loop pat wrap 0 r)
          | Some (String _ m' as m, _) => wrap m ++ replace_loop pat wrap (String.length m') r
          | None => String c (replace_loop pat wrap 0 r)
          end
      end
  end.

Definition replace_all (pat : string) (wrap : string -> string) (s : string) : string :=
  replace_loop pat wrap 0 s.

End RegExp.

(** ** src/utils/searchUtils.ts *)

Module Search.

Import RegExp.

(** [str.replace(/[.*+?^${}()|[\]\\]/g, '\\$&')] *)
Fixpoint escapeRegExp (str : string) : string :=
  match str with
  | EmptyString => EmptyString
  | String c r =>
      if isSyntaxCharacter c
      then String backslash (String c (escapeRegExp r))
      else String c (escapeRegExp r)
  end.

Definition dquote : string := String "034"%char EmptyString.

Definition mark_open : string :=
  "<mark class=" ++ dquote ++ "bg-yellow-200 dark:bg-yellow-800" ++ dquote ++ ">".

Definition mark_close : string := "</mark>".

(** The replacement [<mark ...>$1</mark>] for a match [m]. *)
Definition mark (m : string) : string := mark_open ++ m ++ mark_close.

(** [highlightSearchTerm].  [None] would say that the expression built
    from the term is not a group around a character sequence. *)
Definition highlightSearchTerm (text searchTerm : string) : option string :=
  if negb (Str.truthy (Str.trim searchTerm)) || negb (Str.truthy text)
  then Some text
  else
    let escapedTerm := escapeRegExp (Str.trim searchTerm) in
    match compile_group ("(" ++ escapedTerm ++ ")") with
    | Some regex => Some (replace_all regex mark text)
    | None => None
    end.

(** [occurs_at t s m rest]: [s] starts with [m], an occurrence of [t] up
    to the case of letters, and goes on with [rest]. *)
Inductive occurs_at : string -> string -> string -> string -> Prop :=
| occurs_nil s : occurs_at EmptyString s EmptyString s
| occurs_cons a c t s m rest :
    Char.eqb_i a c = true ->
    occurs_at t s m rest ->
    occurs_at (String a t) (String c s) (String c m) rest.

(** [highlighted t text out]: [out] is [text] with the occurrences of the
    non-empty [t], taken from left to right and without overlap, each
    wrapped in the marker, and everything else kept. *)
Inductive highlighted (t : string) : string -> string -> Prop :=
| highlighted_end : highlighted t EmptyString EmptyString
| highlighted_hit text m rest out :
    occurs_at t text m rest ->
    highlighted t rest out ->
    highlighted t text (mark m ++ out)
| highlighted_keep c text out :
    (forall m rest, ~ occurs_at t (String c text) m rest) ->
    highlighted t text out ->
    highlighted t (String c text) (String c out).

End Search.

(** ** src/utils/errorHandling.ts *)

Module ErrorHandling.

(** An [Error] value, as far as classification reads it. *)
Record JSError := mkError {
  error_name : string;
  error_message : string
}.

Definition networkErrorPatterns : list string :=
  ["network"; "fetch"; "timeout"; "connection"; "offline"].

Definition validationErrorPatterns : list string :=
  ["validation"; "invalid"; "required"; "format"].

Definition retryablePatterns : list string :=
  ["temporary"; "rate limit"; "service unavailable"; "internal server error"].

(** [patterns.some(pattern => pattern.test(message))] *)
Definition some_test (patterns : list string) (message : string) : bool :=
  existsb (fun pattern => RegExp.test_i pattern message) patterns.

Definition isNetworkError (e : JSError) : bool :=
  let isNetworkErrorName :=
    String.eqb (error_name e) "NetworkError" || String.eqb (error_name e) "TypeError" in
  let hasNetworkMessage := some_test networkErrorPatterns (error_message e) in
  isNetworkErrorName || hasNetworkMessage.

Definition isValidationError (e : JSError) : bool :=
  let isValidationErrorName := String.eqb (error_name e) "ValidationError" in
  let hasValidationMessage := some_test validationErrorPatterns (error_message e) in
  isValidationErrorName || hasValidationMessage.

Definition isRetryableError (e : JSError) : bool :=
  if isValidationError e then false
  else if isNetworkError e then true
  else some_test retryablePatterns (error_message e).

End ErrorHandling.

(** ** src/components/MessageComposer/MessageComposer.tsx *)

Module Composer.

Definition MAX_CHARACTERS : nat := 2000.

(** [value.slice(0, n)]: the first [n] characters. *)
Fixpoint slice_to (n : nat) (value : string) : string :=
  match n, value with
  | S k, String c r => String c (slice_to k r)
  | _, _ => EmptyString
  end.

(** [handleInputChange]: the text kept in the component for the text
    [value] of the input element. *)
Definition handleInputChange (value : string) : string :=
  if (String.length value <=? MAX_CHARACTERS)%nat
  then value
  else slice_to MAX_CHARACTERS value.

(** [sendMessage], on the text [message] of the component: the text left in
    the component and the state of the store, or the exception that escapes
    from [addMessage].  As in [Store.addMessage], [newId] and [now] are
    what [generateId] and [new Date()] give. *)
Definition sendMessage (newId : string) (now : Z) (channelId : string)
    (disabled : bool) (message : string) (st : AppState)
    : Store.TypeError + string * AppState :=
  let trimmedMessage := Str.trim message in
  if negb (Str.truthy trimmedMessage) || disabled
  then inr (message, st)
  else
    match Store.addMessage newId now channelId
            (mkMessageData "current-user" trimmedMessage Text) st with
    | inl e => inl e
    | inr st' => inr (EmptyString, st')
    end.

End Composer.

(** ** Sequences of calls of addMessage *)

(** The arguments of one call of [addMessage], with the identifier and the
    instant the environment gives it. *)
Record AddCall := mkAddCall {
  call_newId : string;
  call_now : Z;
  call_channelId : string;
  call_data : MessageData
}.

(** The state of the store after the call, which is the state before it
    when the call throws. *)
Definition apply_add (st : AppState) (c : AddCall) : AppState :=
  match Store.addMessage (call_newId c) (call_now c) (call_channelId c)
          (call_data c) st with
  | inr st' => st'
  | inl _ => st
  end.

(** The list of messages the store holds for a channel, empty when it
    holds none. *)
Definition stored_messages (st : AppState) (channelId : string) : list Message :=
  default [] (messages st !! channelId).

Definition run_adds (calls : list AddCall) (st : AppState) : AppState :=
  fold_left apply_add calls st.

(** The content of a stored message is trimmed, not empty and at most 2000
    characters long. *)
Definition content_ok (m : Message) : Prop :=
  Str.trim (message_content m) = message_content m
  /\ (0 < String.length (message_content m) <= 2000)%nat.

Definition all_contents_ok (st : AppState) : Prop :=
  forall channelId ms m,
    messages st !! channelId = Some ms -> In m ms -> content_ok m.

(** ** src/utils/searchUtils.ts: keyboard shortcuts *)

Module Shortcuts.

(** What [isSearchShortcut] reads of a [KeyboardEvent]. *)
Record KeyboardEvent := mkKeyboardEvent {
  event_key : string;
  event_code : string;
  event_ctrlKey : bool;
  event_metaKey : bool
}.

(** [keyof typeof SEARCH_SHORTCUTS] *)
Inductive Shortcut := CLEAR | FOCUS | NAVIGATE_DOWN | NAVIGATE_UP | SELECT.

Definition SEARCH_SHORTCUTS (shortcut : Shortcut) : string :=
  match shortcut with
  | CLEAR => "Escape"
  | FOCUS => "KeyK"
  | NAVIGATE_DOWN => "ArrowDown"
  | NAVIGATE_UP => "ArrowUp"
  | SELECT => "Enter"
  end.

(** [s] without its prefix [p], when it has that prefix. *)
Fixpoint strip_prefix (p s : string) : option string :=
  match p, s with
  | EmptyString, _ => Some s
  | String a p', String b s' => if Ascii.eqb a b then strip_prefix p' s' else None
  | String _ _, EmptyString => None
  end.

(** [s.replace(pattern, replacement)] for a string pattern: the first
    occurrence is replaced. *)
Fixpoint replace_first (pattern replacement s : string) : string :=
  match strip_prefix pattern s with
  | Some rest => replacement ++ rest
  | None =>
      match s with
      | EmptyString => EmptyString
      | String c r => String c (replace_first pattern replacement r)
      end
  end.

Definition isSearchShortcut (event : KeyboardEvent) (shortcut : Shortcut) : bool :=
  let key := SEARCH_SHORTCUTS shortcut in
  match shortcut with
  | CLEAR => String.eqb (event_key event) key
  | FOCUS =>
      (event_ctrlKey event || event_metaKey event) && String.eqb (event_code event) key
  | NAVIGATE_DOWN | NAVIGATE_UP | SELECT =>
      String.eqb (event_key event) (replace_first "Arrow" "" key)
  end.

End Shortcuts.

(** ** src/components/ErrorBoundary/ErrorBoundary.tsx: severity *)

Module Severity.

Import ErrorHandling.

Inductive ErrorSeverity := LOW | MEDIUM | HIGH.

Definition getErrorSeverity (e : JSError) : ErrorSeverity :=
  if isNetworkError e then MEDIUM
  else if isValidationError e then LOW
  else HIGH.

End Severity.

(** ** src/utils/errorHandling.ts: createRetryHandler *)

Module Retry.

Import ErrorHandling.

(** The configuration, with [maxRetries] a natural number and the delay and
    the multiplier integers (as the defaults 3, 1000 and 2 are), on which
    the product [delay * Math.pow(backoffMultiplier, attempt)] is exact. *)
Record RetryConfig := mkRetryConfig {
  maxRetries : nat;
  delay : Z;
  backoffMultiplier : Z
}.

Definition default_config : RetryConfig := mkRetryConfig 3 1000 2.

(** How the promise of the handler settles; [RejectedUndefined] is the
    [throw lastError!] after the loop with no error recorded. *)
Inductive Outcome (T : Type) :=
| Resolved (v : T)
| Rejected (e : JSError)
| RejectedUndefined.
Arguments Resolved {T} v.
Arguments Rejected {T} e.
Arguments RejectedUndefined {T}.

(** One run of the handler: how it settles, how often the operation was
    invoked, the arguments of the calls of [onRetry] and the waiting times,
    both in order. *)
Record Run (T : Type) := mkRun {
  outcome : Outcome T;
  invocations : nat;
  retries : list (nat * JSError);
  waits : list Z
}.
Arguments mkRun {T} _ _ _ _.
Arguments outcome {T} _.
Arguments invocations {T} _.
Arguments retries {T} _.
Arguments waits {T} _.

Section Handler.

Context {T : Type}.

(** The operation, as the result of its invocations in order, the first
    being number 0: a value, or the error it rejects with (a rejection
    that is not an [Error] already wrapped by [new Error(String(error))]).
    [onRetry] is taken to return. *)
Variable operation : nat -> JSError + T.
Variable config : RetryConfig.

Definition waitTime (attempt : nat) : Z :=
  (delay config * backoffMultiplier config ^ Z.of_nat attempt)%Z.

(** The [for] loop from [attempt] on; [fuel] bounds the iterations and
    [None] says that it ran out. *)
Fixpoint retry_loop (fuel attempt : nat) (lastError : option JSError)
    (retried : list (nat * JSError)) (waited : list Z) : option (Run T) :=
  match fuel with
  | O => None
  | S fuel' =>
      if (attempt <=? maxRetries config)%nat
      then
        match operation attempt with
        | inr v => Some (mkRun (Resolved v) (S attempt) retried waited)
        | inl e =>
            if (attempt =? maxRetries config)%nat || negb (isRetryableError e)
            then Some (mkRun (Rejected e) (S attempt) retried waited)
            else retry_loop fuel' (S attempt) (Some e)
                   (retried ++ [(attempt + 1, e)])%list
                   (waited ++ [waitTime attempt])%list
        end
      else
        Some (mkRun (match lastError with
                     | Some e => Rejected e
                     | None => RejectedUndefined
                     end) attempt retried waited)
  end.

Definition retryHandler : option (Run T) :=
  retry_loop (S (S (maxRetries config))) 0 None [] [].

End Handler.

End Retry.

(** ** src/App.tsx: the channel route *)

Module Router.

Inductive RouteAction :=
| NoAction
| Activate (channelId : string)
| NavigateNotFound.

(** The effect of [ChannelRoute], for the channel identifier of the URL
    (absent, or a string) and the state of the store: it calls
    [setActiveChannel], navigates to the not-found page, or does nothing. *)
Definition channelRouteEffect (channelId : option string) (st : AppState)
    : RouteAction :=
  match channelId with
  | None => NoAction
  | Some id =>
      if negb (Str.truthy id) || isLoading st then NoAction
      else
        let channelExists :=
          existsb (fun channel => String.eqb (channel_id channel) id) (channels st) in
        if channelExists then Activate id
        else if (0 <? length (channels st))%nat then NavigateNotFound
        else NoAction
  end.

(** [RootRedirect]: where the root path leads once loading is over. *)
Definition defaultChannel (st : AppState) : string :=
  match channels st with
  | ch :: _ => channel_id ch
  | [] => "general"
  end.

End Router.

(** ** The notions of the specification *)

(** What the statements below say about texts is said with the notions of
    this module, which are written down from the meaning of the words
    (white space, letters that differ by case only, the marker) and not
    with the functions of the code. *)

Module Spec.

(** White space: TAB, LF, VT, FF, CR, SPACE and NO-BREAK SPACE. *)
Definition white_space (c : ascii) : Prop :=
  In (nat_of_ascii c) [9; 10; 11; 12; 13; 32; 160].

(** A text made of white space only; the empty text is one. *)
Fixpoint blank (s : string) : Prop :=
  match s with
  | EmptyString => True
  | String c r => white_space c /\ blank r
  end.

Definition starts_with_space (s : string) : Prop :=
  match s with
  | EmptyString => False
  | String c _ => white_space c
  end.

Fixpoint ends_with_space (s : string) : Prop :=
  match s with
  | EmptyString => False
  | String c EmptyString => white_space c
  | String _ r => ends_with_space r
  end.

(** [core] is [term] without the white space around it. *)
Definition trimmed_core (term core : string) : Prop :=
  exists lead trail,
    term = lead ++ core ++ trail
    /\ blank lead /\ blank trail
    /\ ~ starts_with_space core /\ ~ ends_with_space core.

(** The codes of the upper-case letters: A to Z, and the accented letters
    from U+00C0 to U+00DE without the multiplication sign.  The lower-case
    form of each has the code 32 further. *)
Definition upper_case_code (n : nat) : Prop :=
  (65 <= n <= 90 \/ 192 <= n <= 214 \/ 216 <= n <= 222)%nat.

Definition case_pair (upper lower : ascii) : Prop :=
  upper_case_code (nat_of_ascii upper)
  /\ nat_of_ascii lower = (nat_of_ascii upper + 32)%nat.

(** The same character, or the two cases of one letter. *)
Definition same_letter (a b : ascii) : Prop :=
  a = b \/ case_pair a b \/ case_pair b a.

(** The same text up to the case of letters. *)
Fixpoint same_text (s t : string) : Prop :=
  match s, t with
  | EmptyString, EmptyString => True
  | String a s', String b t' => same_letter a b /\ same_text s' t'
  | _, _ => False
  end.

(** [s] contains [q] as a substring, up to the case of letters. *)
Definition contains_ignoring_case (s q : string) : Prop :=
  exists pre mid post, s = pre ++ mid ++ post /\ same_text mid q.

(** [s] starts with [m], the text [t] up to the case of letters, and goes
    on with [rest]. *)
Definition occurs_at (t s m rest : string) : Prop :=
  s = m ++ rest /\ same_text m t.

(** The marker around a highlighted part [m]:
    the element mark with the class attribute bg-yellow-200
    dark:bg-yellow-800, as the tests of the search utilities expect it. *)
Definition marker_open : string :=
  "<mark class=" ++ String "034"%char "bg-yellow-200 dark:bg-yellow-800"
    ++ String "034"%char ">".

Definition marker_close : string := "</mark>".

Definition wrapped (m : string) : string := marker_open ++ m ++ marker_close.

(** [highlighted t text out]: [out] is [text] with the occurrences of the
    non-empty [t], taken from left to right and without overlap, each
    wrapped in the marker, and everything else kept. *)
Inductive highlighted (t : string) : string -> string -> Prop :=
| highlighted_end : highlighted t EmptyString EmptyString
| highlighted_hit text m rest out :
    occurs_at t text m rest ->
    highlighted t rest out ->
    highlighted t text (wrapped m ++ out)
| highlighted_keep c text out :
    (forall m rest, ~ occurs_at t (String c text) m rest) ->
    highlighted t text out ->
    highlighted t (String c text) (String c out).


End Spec.

(** [s] mentions [w]: some part of [s] is [w] up to the case of letters. *)
Definition mentions (s w : string) : Prop := Spec.contains_ignoring_case s w.

(** ** Notions and sample data used in the statements *)

(** The identifier of the first loaded channel, when there is one and it
    is not the empty string. *)
Definition first_channel_id (cs : list Channel) : option string :=
  match head cs with
  | Some ch => if decide (channel_id ch = "") then None else Some (channel_id ch)
  | None => None
  end.


(** A store holding a dark theme and an empty settings object, every call
    on which throws. *)
Definition broken_store : Storage.LocalStorage :=
  Storage.mkLS
    (<[Storage.THEME := "dark"]> (<[Storage.SETTINGS := "{}"]> ∅))
    (fun _ => true) 0.

(** A store that accepts the probe (accesses 0 and 1) and throws from then
    on: the write of the theme fails. *)
Definition write_failing_store : Storage.LocalStorage :=
  Storage.mkLS ∅ (fun n => (2 <=? n)%nat) 0.

(** A store that never throws. *)
Definition working_store : Storage.LocalStorage :=
  Storage.mkLS ∅ (fun _ => false) 0.

(** The JSON text of the object whose only field, lastActiveChannel, is
    the string ghost: what [setActiveChannel] leaves under the settings key
    when called with that identifier. *)
Definition ghost_settings_text : string :=
  "{" ++ Search.dquote ++ "lastActiveChannel" ++ Search.dquote ++ ":"
      ++ Search.dquote ++ "ghost" ++ Search.dquote ++ "}".

(** [JSON.parse], on that one text. *)
Definition parse_ghost (s : string) : option Storage.JSONValue :=
  if String.eqb s ghost_settings_text
  then Some (Storage.JObject (Storage.mkSettings None (Some "ghost")))
  else None.

Definition general_channel : Channel :=
  mkChannel "general" "General" "General discussion and announcements"
            Public 1704103200000 6.

Definition tech_channel : Channel :=
  mkChannel "tech" "Tech Talk" "Technical discussions, programming, and development"
            Public 1704205800000 4.

Definition ghost_store : Storage.LocalStorage :=
  Storage.mkLS (<[Storage.SETTINGS := ghost_settings_text]> ∅) (fun _ => false) 0.

(** ** More sample data *)

(** A store that never throws and holds the theme dark. *)
Definition dark_store : Storage.LocalStorage :=
  Storage.mkLS (<[Storage.THEME := "dark"]> ∅) (fun _ => false) 0.

(** The JSON text of the object with the fields sidebarOpen, false, and
    lastActiveChannel, the string ghost. *)
Definition closed_ghost_settings_text : string :=
  "{" ++ Search.dquote ++ "sidebarOpen" ++ Search.dquote ++ ":false,"
      ++ Search.dquote ++ "lastActiveChannel" ++ Search.dquote ++ ":"
      ++ Search.dquote ++ "ghost" ++ Search.dquote ++ "}".

(** [JSON.stringify] on settings whose channel identifier has no character
    that needs escaping. *)
Definition stringify_plain (s : Storage.Settings) : string :=
  let flag :=
    match Storage.settings_sidebarOpen s with
    | Some b => [Search.dquote ++ "sidebarOpen" ++ Search.dquote ++ ":"
                   ++ (if b then "true" else "false")]
    | None => []
    end in
  let channel :=
    match Storage.settings_lastActiveChannel s with
    | Some c => [Search.dquote ++ "lastActiveChannel" ++ Search.dquote ++ ":"
                   ++ Search.dquote ++ c ++ Search.dquote]
    | None => []
    end in
  "{" ++ String.concat "," (flag ++ channel)%list ++ "}".

(** [JSON.parse], on the two sample texts. *)
Definition parse_samples (s : string) : option Storage.JSONValue :=
  if String.eqb s ghost_settings_text
  then Some (Storage.JObject (Storage.mkSettings None (Some "ghost")))
  else if String.eqb s closed_ghost_settings_text
  then Some (Storage.JObject (Storage.mkSettings (Some false) (Some "ghost")))
  else None.

(** Calendar days in UTC, for instants in milliseconds. *)
Definition same_utc_day (a b : Z) : bool := (a / 86400000 =? b / 86400000)%Z.

(** A formatter that knows the first day of 2024. *)
Definition format_day_number (date : Z) (pattern : string) : string :=
  if (date / 86400000 =? 19723)%Z then "Monday, January 1, 2024" else "another day".

(** Two messages of 1 January 2024 and one of the next day. *)
Definition morning_message : Message :=
  mkMessage "msg-1" "general" "user-alice" "Good morning" 1704103200000 Text None.

Definition noon_message : Message :=
  mkMessage "msg-2" "general" "user-bob" "Lunch?" 1704110400000 Text None.

(** * Properties *)

(** ** Strings: trimming *)

Section TrimFacts.

Import Str.

Lemma trimEnd_length s : (String.length (trimEnd s) <= String.length s)%nat.
Proof.
  induction s as [|c r IH]; simpl; [lia|].
  destruct (trimEnd r) eqn:E; simpl in *.
  - destruct (Char.isWhiteSpace c); simpl; lia.
  - lia.
Qed.

Lemma trimStart_length s : (String.length (trimStart s) <= String.length s)%nat.
Proof.
  induction s as [|c r IH]; simpl; [lia|].
  destruct (Char.isWhiteSpace c); simpl; lia.
Qed.

Lemma trim_length s : (String.length (trim s) <= String.length s)%nat.
Proof.
  unfold trim. pose proof (trimEnd_length (trimStart s)).
  pose proof (trimStart_length s). lia.
Qed.

Lemma trimStart_clean s : starts_clean (trimStart s).
Proof.
  induction s as [|c r IH]; simpl; [exact I|].
  destruct (Char.isWhiteSpace c) eqn:E; [exact IH | simpl; exact E].
Qed.

Lemma trimStart_id s : starts_clean s -> trimStart s = s.
Proof. destruct s as [|c r]; simpl; [reflexivity|]. intros ->. reflexivity. Qed.

Lemma trimEnd_clean s : starts_clean s -> starts_clean (trimEnd s).
Proof.
  destruct s as [|c r]; simpl; [intros _; exact I|].
  intros Hc. destruct (trimEnd r); [rewrite Hc|]; simpl; exact Hc.
Qed.

Lemma trimEnd_idem s : trimEnd (trimEnd s) = trimEnd s.
Proof.
  induction s as [|c r IH]; simpl; [reflexivity|].
  destruct (trimEnd r) as [|d r'] eqn:E.
  - destruct (Char.isWhiteSpace c) eqn:W; simpl; [reflexivity|].
    rewrite W. reflexivity.
  - change (trimEnd (String c (String d r')) = String c (String d r')).
    simpl in IH. simpl.
    destruct (trimEnd r') as [|e r''] eqn:E'.
    + destruct (Char.isWhiteSpace d) eqn:W; [discriminate IH|].
      congruence.
    + rewrite IH. reflexivity.
Qed.

Lemma trim_idem s : trim (trim s) = trim s.
Proof.
  unfold trim.
  rewrite (trimStart_id (trimEnd (trimStart s))).
  - apply trimEnd_idem.
  - apply trimEnd_clean, trimStart_clean.
Qed.

Lemma truthy_false s : truthy s = false <-> s = EmptyString.
Proof. destruct s; simpl; split; congruence. Qed.

Lemma truthy_length s : truthy s = (0 <? String.length s)%nat.
Proof. destruct s; reflexivity. Qed.

End TrimFacts.

(** ** addMessage *)

Section AddMessage.

Import Store.

Variables (newId : string) (now : Z) (channelId : string).
Variables (messageData : MessageData) (st : AppState).

Let content := data_content messageData.
Let newMessage :=
  mkMessage newId channelId (data_userId messageData) (Str.trim content)
            now (data_type messageData) None.

Lemma validateMessageContent_spec c :
  validateMessageContent c = true <->
  (0 < String.length (Str.trim c) /\ String.length c <= 2000)%nat.
Proof.
  unfold validateMessageContent.
  rewrite andb_true_iff, Nat.ltb_lt, Nat.leb_le. reflexivity.
Qed.

Lemma addMessage_rejected :
  validateMessageContent content = false ->
  addMessage newId now channelId messageData st
  = inr (set_error (Some invalid_content_error) st).
Proof.
  intros H. subst content. unfold addMessage. rewrite H. reflexivity.
Qed.

Lemma addMessage_accepted ms :
  validateMessageContent content = true ->
  getChannelMessages st channelId = MessageList ms ->
  addMessage newId now channelId messageData st
  = inr (set_messages
           (<[channelId := (ms ++ [newMessage])%list]> (messages st)) None st).
Proof.
  intros H G. subst content newMessage. unfold addMessage. rewrite H, G. reflexivity.
Qed.

Lemma addMessage_inherited name :
  validateMessageContent content = true ->
  getChannelMessages st channelId = InheritedValue name ->
  addMessage newId now channelId messageData st = inl NotIterable.
Proof.
  intros H G. subst content. unfold addMessage. rewrite H, G. reflexivity.
Qed.

Lemma getChannelMessages_inserted k ms m :
  getChannelMessages (set_messages (<[k := ms]> (messages st)) m st) k
  = MessageList ms.
Proof.
  unfold getChannelMessages. cbn [messages set_messages].
  rewrite lookup_insert_eq. reflexivity.
Qed.

(** Under a name that is not inherited, the messages read as a list. *)
Lemma getChannelMessages_list :
  inherited channelId = false ->
  exists ms, getChannelMessages st channelId = MessageList ms.
Proof.
  intros H. unfold getChannelMessages. rewrite H.
  destruct (messages st !! channelId); eauto.
Qed.

(** C1, amended: for a channel whose messages read as a list (any channel
    identifier that is not the name of an inherited property), [addMessage]
    appends a message to that list exactly when the content is non-empty
    after trimming and its length, before trimming, is at most 2000. *)
Theorem addMessage_accepts_iff (ms : list Message) :
  getChannelMessages st channelId = MessageList ms ->
  (exists st' m,
      addMessage newId now channelId messageData st = inr st'
      /\ getChannelMessages st' channelId = MessageList (ms ++ [m])%list)
  <-> (0 < String.length (Str.trim content)
       /\ String.length content <= 2000)%nat.
Proof.
  intros G. rewrite <- validateMessageContent_spec.
  destruct (validateMessageContent content) eqn:V.
  - rewrite (addMessage_accepted ms V G). split; [reflexivity|]. intros _.
    eexists. exists newMessage. split; [reflexivity|].
    apply getChannelMessages_inserted.
  - rewrite (addMessage_rejected V). split; [|discriminate].
    intros (st' & m & [= <-] & G').
    unfold getChannelMessages in G, G'. cbn [messages set_error] in G'.
    rewrite G in G'. injection G' as G'.
    apply (f_equal (@length Message)) in G'. rewrite length_app in G'.
    simpl in G'. lia.
Qed.

(** What a call does for a channel whose messages read as a list: a
    rejected call sets the fixed error and leaves every message list as it
    was; an accepted call appends exactly one message, carrying the
    trimmed content, to the end of the channel's list (starting the list
    when the channel had none), leaves the other channels alone and clears
    the error. *)
Lemma addMessage_outcome_on_lists (ms : list Message) :
  getChannelMessages st channelId = MessageList ms ->
  exists st',
    addMessage newId now channelId messageData st = inr st'
    /\ if validateMessageContent content
       then messages st' !! channelId = Some (ms ++ [newMessage])%list
            /\ (forall other : string,
                   other <> channelId ->
                   messages st' !! other = messages st !! other)
            /\ error st' = None
       else error st' = Some invalid_content_error
            /\ messages st' = messages st.
Proof.
  intros G. destruct (validateMessageContent content) eqn:V.
  - rewrite (addMessage_accepted ms V G). eexists. split; [reflexivity|].
    cbn [messages set_messages error]. split; [apply lookup_insert_eq|].
    split; [|reflexivity].
    intros other Hne. apply lookup_insert_ne. congruence.
  - rewrite (addMessage_rejected V). eexists. split; [reflexivity|].
    split; reflexivity.
Qed.

(** C2, as the code behaves where it departs from the claim: for valid
    content and a channel identifier that names an inherited property of
    the messages object and is not a key of its own, the call throws; no
    message is appended and the error is not cleared. *)
Theorem addMessage_inherited_key_throws :
  validateMessageContent content = true ->
  inherited channelId = true ->
  messages st !! channelId = None ->
  addMessage newId now channelId messageData st = inl NotIterable.
Proof.
  intros V I N. apply (addMessage_inherited channelId V).
  unfold getChannelMessages. rewrite N, I. reflexivity.
Qed.

End AddMessage.

(** C1 as the specification states it fails: content that is one letter
    followed by 2000 spaces has trimmed length 1, yet it is rejected, since
    its length before trimming is 2001. *)
Lemma addMessage_rejects_long_padding :
  let c := String "a" (Str.repeat " " 2000) in
  let data := mkMessageData "user-alice" c Text in
  (0 < String.length (Str.trim c) /\ String.length (Str.trim c) <= 2000)%nat
  /\ Store.getChannelMessages Store.initial_state "general" = Store.MessageList []
  /\ Store.addMessage "msg-1" 0 "general" data Store.initial_state
     = inr (Store.set_error (Some Store.invalid_content_error) Store.initial_state)
  /\ Store.getChannelMessages
       (Store.set_error (Some Store.invalid_content_error) Store.initial_state)
       "general" = Store.MessageList [].
Proof. vm_compute. repeat split; lia. Qed.

Lemma addMessage_accepts_iff_witness :
  (exists st' m,
      Store.addMessage "msg-1" 0 "general"
        (mkMessageData "user-alice" "  hello  " Text) Store.initial_state = inr st'
      /\ Store.getChannelMessages st' "general" = Store.MessageList ([] ++ [m])%list)
  <-> (0 < String.length (Str.trim "  hello  ")
       /\ String.length "  hello  " <= 2000)%nat.
Proof.
  apply (addMessage_accepts_iff "msg-1" 0 "general"
           (mkMessageData "user-alice" "  hello  " Text) Store.initial_state []).
  reflexivity.
Defined.

(** The call of the failing input of C2: valid content sent to the channel
    identifier constructor, on the store as it starts. *)
Lemma addMessage_inherited_key_throws_witness :
  Store.addMessage "msg-1" 0 "constructor"
    (mkMessageData "user-alice" "hello" Text) Store.initial_state
  = inl Store.NotIterable.
Proof.
  apply (addMessage_inherited_key_throws "msg-1" 0 "constructor"
           (mkMessageData "user-alice" "hello" Text) Store.initial_state);
    reflexivity.
Defined.

(** ** The persistence adapter: failure containment *)

Section Containment.

Import Storage.
Local Open Scope storage_scope.

Lemma steady_access {A} (f : gmap string string -> A * gmap string string) :
  steady (access f).
Proof.
  intros ls. unfold access.
  destruct (throwsAt ls (accesses ls)); [reflexivity|].
  destruct (f (items ls)); reflexivity.
Qed.

Lemma steady_ret {A} (a : A) : steady (ret a).
Proof. intros ls. reflexivity. Qed.

Lemma steady_throw {A} (e : exn) : steady (@throw A e).
Proof. intros ls. reflexivity. Qed.

Lemma steady_bind {A B} (m : M A) (k : A -> M B) :
  steady m -> (forall a, steady (k a)) -> steady (bind m k).
Proof.
  intros Hm Hk ls. unfold bind. specialize (Hm ls).
  destruct (m ls) as [[e|a] ls1]; simpl in *; [exact Hm|].
  rewrite (Hk a ls1). exact Hm.
Qed.

Lemma steady_try {A} (m : M A) (h : exn -> M A) :
  steady m -> (forall e, steady (h e)) -> steady (try_catch m h).
Proof.
  intros Hm Hh ls. unfold try_catch. specialize (Hm ls).
  destruct (m ls) as [[e|a] ls1]; simpl in *; [|exact Hm].
  rewrite (Hh e ls1). exact Hm.
Qed.

Lemma contained_steady {A} (m : M A) : contained m -> steady m.
Proof. intros H ls. destruct (H ls) as (a & ls' & -> & E). exact E. Qed.

Lemma contained_ret {A} (a : A) : contained (ret a).
Proof. intros ls. exists a, ls. split; reflexivity. Qed.

Lemma contained_bind {A B} (m : M A) (k : A -> M B) :
  contained m -> (forall a, contained (k a)) -> contained (bind m k).
Proof.
  intros Hm Hk ls. unfold bind.
  destruct (Hm ls) as (a & ls1 & -> & E1).
  destruct (Hk a ls1) as (b & ls2 & -> & E2).
  exists b, ls2. split; [reflexivity | congruence].
Qed.

(** [try ... catch] with a handler that does not throw contains whatever
    its body throws. *)
Lemma contained_try {A} (m : M A) (h : exn -> M A) :
  steady m -> (forall e, contained (h e)) -> contained (try_catch m h).
Proof.
  intros Hm Hh ls. unfold try_catch. specialize (Hm ls).
  destruct (m ls) as [[e|a] ls1]; simpl in *.
  - destruct (Hh e ls1) as (b & ls2 & -> & E2).
    exists b, ls2. split; [reflexivity | congruence].
  - exists a, ls1. split; [reflexivity | exact Hm].
Qed.

Lemma contained_if {A} (b : bool) (m1 m2 : M A) :
  contained m1 -> contained m2 -> contained (if b then m1 else m2).
Proof. destruct b; auto. Qed.

Ltac contain :=
  repeat first
    [ progress intros
    | apply contained_ret
    | apply contained_if
    | apply contained_bind
    | apply contained_try
    | apply steady_bind
    | apply steady_try
    | apply steady_access
    | apply steady_ret
    | apply steady_throw
    | match goal with
      | |- contained (match ?x with _ => _ end) => destruct x
      | |- steady (match ?x with _ => _ end) => destruct x
      end ].

Variable JSON_parse : string -> option JSONValue.
Variable JSON_stringify : Settings -> string.

Lemma isStorageAvailable_contained : contained isStorageAvailable.
Proof. unfold isStorageAvailable, setItem, removeItem. contain. Qed.

Lemma getTheme_contained : contained getTheme.
Proof.
  unfold getTheme. apply contained_bind; [apply isStorageAvailable_contained|].
  unfold getItem. contain.
Qed.

Lemma setTheme_contained t : contained (setTheme t).
Proof.
  unfold setTheme. apply contained_bind; [apply isStorageAvailable_contained|].
  unfold setItem. contain.
Qed.

Lemma getSettings_contained : contained (getSettings JSON_parse).
Proof.
  unfold getSettings. apply contained_bind; [apply isStorageAvailable_contained|].
  unfold getItem. contain.
Qed.

Lemma setSettings_contained s : contained (setSettings JSON_parse JSON_stringify s).
Proof.
  unfold setSettings. apply contained_bind; [apply isStorageAvailable_contained|].
  intros avail. apply contained_if; [apply contained_ret|].
  apply contained_try; [|intros; apply contained_ret].
  apply steady_bind; [apply contained_steady, getSettings_contained|].
  intros. apply steady_access.
Qed.

Lemma clearAll_contained : contained clearAll.
Proof.
  unfold clearAll. apply contained_bind; [apply isStorageAvailable_contained|].
  unfold removeItem. contain.
Qed.

(** On a store that throws on every call the probe fails at its first
    access. *)
Lemma isStorageAvailable_throwing ls :
  always_throws ls ->
  isStorageAvailable ls
  = (inr false, mkLS (items ls) (throwsAt ls) (S (accesses ls))).
Proof.
  intros H. unfold isStorageAvailable, try_catch, bind, setItem, access.
  rewrite H. reflexivity.
Qed.

Lemma bind_probe_throwing {A} (k : bool -> M A) ls :
  always_throws ls ->
  bind isStorageAvailable k ls
  = k false (mkLS (items ls) (throwsAt ls) (S (accesses ls))).
Proof.
  intros H. unfold bind. rewrite (isStorageAvailable_throwing ls H). reflexivity.
Qed.

(** C4: when the store throws on every call, [getTheme] returns [light],
    [getSettings] returns the empty object, and no exception escapes
    [setTheme], [setSettings] or [clearAll]; the items are left as they
    were. *)
Theorem throwing_store_defaults ls (t : Theme) (s : Settings) :
  always_throws ls ->
  fst (getTheme ls) = inr Light
  /\ fst (getSettings JSON_parse ls) = inr empty_settings
  /\ fst (setTheme t ls) = inr tt
  /\ fst (setSettings JSON_parse JSON_stringify s ls) = inr tt
  /\ fst (clearAll ls) = inr tt
  /\ items (snd (setTheme t ls)) = items ls
  /\ items (snd (setSettings JSON_parse JSON_stringify s ls)) = items ls
  /\ items (snd (clearAll ls)) = items ls.
Proof.
  intros H.
  unfold getTheme, getSettings, setTheme, setSettings, clearAll.
  rewrite !bind_probe_throwing by exact H.
  repeat split; reflexivity.
Qed.

End Containment.

Lemma throwing_store_defaults_witness :
  fst (Storage.getTheme broken_store) = inr Light
  /\ fst (Storage.getSettings (fun _ => None) broken_store)
     = inr Storage.empty_settings
  /\ fst (Storage.setTheme Dark broken_store) = inr tt
  /\ fst (Storage.setSettings (fun _ => None) (fun _ => "{}")
            (Storage.mkSettings (Some false) None) broken_store) = inr tt
  /\ fst (Storage.clearAll broken_store) = inr tt
  /\ Storage.items (snd (Storage.setTheme Dark broken_store))
     = Storage.items broken_store
  /\ Storage.items (snd (Storage.setSettings (fun _ => None) (fun _ => "{}")
                           (Storage.mkSettings (Some false) None) broken_store))
     = Storage.items broken_store
  /\ Storage.items (snd (Storage.clearAll broken_store))
     = Storage.items broken_store.
Proof.
  apply (throwing_store_defaults (fun _ => None) (fun _ => "{}") broken_store
           Dark (Storage.mkSettings (Some false) None)).
  intros n. reflexivity.
Defined.

(** ** toggleTheme *)

Section ToggleTheme.

Import Storage Store.
Local Open Scope storage_scope.

Lemma nextTheme_cycle t : nextTheme (nextTheme (nextTheme t)) = t.
Proof. destruct t; reflexivity. Qed.

(** On a store that never throws the probe writes and removes its test key. *)
Lemma isStorageAvailable_working ls :
  never_throws ls ->
  isStorageAvailable ls
  = (inr true,
     mkLS (delete storage_test (<[storage_test := storage_test]> (items ls)))
          (throwsAt ls) (S (S (accesses ls)))).
Proof.
  intros H.
  unfold isStorageAvailable, try_catch, bind, setItem, removeItem, access, ret.
  rewrite H. cbn. rewrite H. reflexivity.
Qed.

Lemma setTheme_working t ls :
  never_throws ls ->
  setTheme t ls
  = (inr tt,
     mkLS (<[THEME := theme_string t]>
             (delete storage_test (<[storage_test := storage_test]> (items ls))))
          (throwsAt ls) (S (S (S (accesses ls))))).
Proof.
  intros H. unfold setTheme, bind at 1.
  rewrite (isStorageAvailable_working ls H). simpl.
  unfold try_catch, setItem, access. cbn. rewrite H. reflexivity.
Qed.

(** One step: the state moves to the next theme whatever the store does. *)
Lemma toggleTheme_step st ls :
  exists ls',
    toggleTheme st ls = (inr (set_theme (nextTheme (theme st)) st), ls')
    /\ throwsAt ls' = throwsAt ls.
Proof.
  unfold toggleTheme, bind.
  destruct (setTheme_contained (nextTheme (theme st)) ls) as ([] & ls' & -> & E).
  exists ls'. split; [reflexivity | exact E].
Qed.

Lemma set_theme_thrice st :
  let s1 := set_theme (nextTheme (theme st)) st in
  let s2 := set_theme (nextTheme (theme s1)) s1 in
  set_theme (nextTheme (theme s2)) s2 = st.
Proof. destruct st as [? ? ? t ? ? ? ?]. destruct t; reflexivity. Qed.

(** C8: [toggleTheme] goes light, dark, system, light; three calls bring
    the state back, whatever the store does in between; a call moves the
    in-memory theme even when writes to the store throw, and on a store
    that does not throw it leaves the new value under the theme key. *)
Theorem toggleTheme_cycle st ls :
  (nextTheme Light = Dark /\ nextTheme Dark = System /\ nextTheme System = Light)
  /\ (exists ls',
        toggleTheme st ls = (inr (set_theme (nextTheme (theme st)) st), ls')
        /\ theme (set_theme (nextTheme (theme st)) st) = nextTheme (theme st)
        /\ (never_throws ls ->
            items ls' !! THEME = Some (theme_string (nextTheme (theme st)))))
  /\ (exists ls3,
        (let! s1 := toggleTheme st in
         let! s2 := toggleTheme s1 in
         toggleTheme s2) ls = (inr st, ls3)).
Proof.
  split; [repeat split|]. split.
  - destruct (toggleTheme_step st ls) as (ls' & E & _).
    exists ls'. split; [exact E|]. split; [reflexivity|].
    intros H. unfold toggleTheme, bind in E.
    rewrite (setTheme_working _ ls H) in E. simpl in E.
    injection E as <-. simpl. apply lookup_insert_eq.
  - destruct (toggleTheme_step st ls) as (ls1 & E1 & _).
    destruct (toggleTheme_step (set_theme (nextTheme (theme st)) st) ls1)
      as (ls2 & E2 & _).
    destruct (toggleTheme_step
                (set_theme
                   (nextTheme (theme (set_theme (nextTheme (theme st)) st)))
                   (set_theme (nextTheme (theme st)) st)) ls2)
      as (ls3 & E3 & _).
    exists ls3. unfold bind at 1. rewrite E1.
    unfold bind at 1. rewrite E2. rewrite E3.
    f_equal. f_equal. apply set_theme_thrice.
Qed.

End ToggleTheme.

(** With the write failing, the theme still moves from light to dark, and
    nothing is stored. *)
Lemma toggleTheme_write_fails :
  exists ls',
    Store.toggleTheme Store.initial_state write_failing_store
    = (inr (Store.set_theme Dark Store.initial_state), ls')
    /\ Storage.items ls' !! Storage.THEME = None.
Proof. eexists. split; [vm_compute; reflexivity|]. vm_compute. reflexivity. Qed.

Lemma toggleTheme_cycle_witness :
  exists ls',
    Store.toggleTheme Store.initial_state working_store
    = (inr (Store.set_theme Dark Store.initial_state), ls')
    /\ Storage.items ls' !! Storage.THEME = Some "dark".
Proof.
  destruct (toggleTheme_cycle Store.initial_state working_store)
    as (_ & (ls' & E & _ & P) & _).
  exists ls'. split; [exact E|]. apply P. intros n. reflexivity.
Defined.

(** ** loadMockData *)

Section LoadMockData.

Import Storage Store.
Local Open Scope storage_scope.

Variable JSON_parse : string -> option JSONValue.
Variable mockChannels : list Channel.
Variable mockMessages : gmap string (list Message).

(** On a store that never throws, [getSettings] returns the object stored
    under the settings key. *)
Lemma getSettings_working ls s o :
  never_throws ls ->
  items ls !! SETTINGS = Some s ->
  s <> "" ->
  JSON_parse s = Some (JObject o) ->
  fst (getSettings JSON_parse ls) = inr o.
Proof.
  intros H Hs Hne Hp. unfold getSettings, bind at 1.
  rewrite (isStorageAvailable_working ls H). cbn.
  unfold bind, try_catch, getItem, access. cbn. rewrite H.
  rewrite lookup_delete_ne by discriminate.
  rewrite lookup_insert_ne by discriminate.
  rewrite Hs. destruct s as [|c r]; [congruence|]. cbn. rewrite Hp. reflexivity.
Qed.

(** C3, amended: loading replaces channels and messages, clears the loading
    flag, and makes active the persisted last-active channel whenever the
    settings read from the store hold a non-empty one (whether or not a
    loaded channel has that identifier), otherwise the first loaded
    channel, otherwise none. *)
Theorem loadMockData_active_channel st ls :
  exists settings ls' st',
    getSettings JSON_parse ls = (inr settings, ls')
    /\ loadMockData JSON_parse mockChannels mockMessages st ls = (inr st', ls')
    /\ channels st' = mockChannels
    /\ messages st' = mockMessages
    /\ isLoading st' = false
    /\ activeChannelId st'
       = match settings_lastActiveChannel settings with
         | Some EmptyString | None => first_channel_id mockChannels
         | Some persisted => Some persisted
         end.
Proof.
  destruct (getSettings_contained JSON_parse ls) as (settings & ls' & E & _).
  exists settings, ls'. eexists.
  split; [exact E|].
  unfold loadMockData, bind. rewrite E.
  split; [reflexivity|]. cbn.
  do 3 (split; [reflexivity|]).
  unfold defaultActiveChannel, first_channel_id.
  destruct (settings_lastActiveChannel settings) as [[|c r]|]; cbn;
    try reflexivity;
    destruct mockChannels as [|ch rest]; cbn; try reflexivity;
    destruct (channel_id ch); reflexivity.
Qed.

End LoadMockData.

(** C3 as the specification states it fails: with the persisted last-active
    channel [ghost] and the loaded channels [general] and [tech], the active
    channel becomes [ghost], which no loaded channel has as identifier,
    and not [general], the first loaded channel. *)
Lemma loadMockData_keeps_unknown_channel :
  exists st' ls',
    Store.loadMockData parse_ghost [general_channel; tech_channel] ∅
      Store.initial_state ghost_store = (inr st', ls')
    /\ activeChannelId st' = Some "ghost"
    /\ existsb (fun ch => String.eqb (channel_id ch) "ghost")
               [general_channel; tech_channel] = false
    /\ activeChannelId st' <> Some (channel_id general_channel).
Proof.
  eexists. eexists. split; [vm_compute; reflexivity|].
  split; [reflexivity|]. split; [reflexivity|]. discriminate.
Qed.

Lemma loadMockData_active_channel_witness :
  exists st' ls',
    Store.loadMockData parse_ghost [general_channel; tech_channel] ∅
      Store.initial_state working_store = (inr st', ls')
    /\ isLoading st' = false
    /\ activeChannelId st' = Some "general".
Proof.
  destruct (loadMockData_active_channel parse_ghost
              [general_channel; tech_channel] ∅ Store.initial_state working_store)
    as (settings & ls' & st' & E & L & _ & _ & F & A).
  exists st', ls'. split; [exact L|]. split; [exact F|].
  rewrite A. vm_compute in E. injection E as <- _. reflexivity.
Defined.

(** ** groupMessagesByDate *)

Section Grouping.

Import Timestamp.
Local Open Scope list_scope.

Variable isSameDay : Z -> Z -> bool.
Variable isToday : Z -> bool.
Variable isYesterday : Z -> bool.
Variable format : Z -> string -> string.

Local Abbreviation separator_of := (separator_of isToday isYesterday format).
Local Abbreviation grouped_after := (grouped_after isSameDay isToday isYesterday format).
Local Abbreviation group_loop := (group_loop isSameDay isToday isYesterday format).
Local Abbreviation groupMessagesByDate :=
  (groupMessagesByDate isSameDay isToday isYesterday format).

(** The message before index [length done] is the last of [done]. *)
Lemma previous_is_last (done rest : list Message) :
  match length done with
  | O => None
  | S j => (done ++ rest) !! j
  end = last done.
Proof.
  destruct done as [|x l] using rev_ind; [reflexivity|].
  rewrite last_snoc, length_app. simpl.
  replace (length l + 1) with (S (length l)) by lia.
  rewrite <- app_assoc. simpl.
  rewrite lookup_app_r by lia. rewrite Nat.sub_diag. reflexivity.
Qed.

(** The loop, started after the messages [done] with enough iterations
    left, appends the grouping of the remaining ones. *)
Lemma group_loop_spec (rest done : list Message) (n : nat) (result : list MessageItem) :
  length rest <= n ->
  group_loop (done ++ rest) n (length done) result
  = result ++ grouped_after (last done) rest.
Proof.
  revert done n result.
  induction rest as [|m rest IH]; intros done n result Hn.
  - rewrite app_nil_r. simpl. rewrite app_nil_r.
    destruct n; [reflexivity|]. simpl.
    rewrite lookup_ge_None_2 by lia. reflexivity.
  - destruct n as [|n]; [simpl in Hn; lia|].
    cbn [Timestamp.group_loop].
    rewrite lookup_app_r by lia. rewrite Nat.sub_diag. cbn [lookup list_lookup].
    rewrite (previous_is_last done (m :: rest)).
    replace (done ++ m :: rest) with ((done ++ [m]) ++ rest)
      by (rewrite <- app_assoc; reflexivity).
    replace (S (length done)) with (length (done ++ [m]))
      by (rewrite length_app; simpl; lia).
    rewrite IH by (simpl in Hn; lia).
    rewrite last_snoc. cbn [Timestamp.grouped_after].
    unfold shouldShowDateSeparator.
    destruct (last done) as [p|].
    + destruct (isSameDay (message_timestamp m) (message_timestamp p)); cbn;
        rewrite <- ?app_assoc; reflexivity.
    + cbn. rewrite <- !app_assoc. reflexivity.
Qed.

Lemma groupMessagesByDate_grouped ms :
  groupMessagesByDate ms = grouped_after None ms.
Proof.
  unfold Timestamp.groupMessagesByDate.
  destruct ms as [|m ms]; [reflexivity|].
  cbn [length Nat.eqb].
  apply (group_loop_spec (m :: ms) [] (length (m :: ms)) []). lia.
Qed.

Lemma grouped_after_app prev ms ms' :
  grouped_after prev (ms ++ ms')
  = grouped_after prev ms
    ++ grouped_after (match last ms with Some l => Some l | None => prev end) ms'.
Proof.
  revert prev. induction ms as [|m ms IH]; intros prev; [reflexivity|].
  cbn [Timestamp.grouped_after app]. rewrite IH.
  rewrite <- app_assoc. cbn [app]. do 3 f_equal.
  destruct ms as [|m' ms]; [reflexivity|].
  rewrite last_cons_cons.
  destruct (last (m' :: ms)) eqn:E; [reflexivity|].
  apply last_None in E. discriminate.
Qed.

(** C5: the empty list is mapped to the empty list and a one-message list
    to its separator followed by the message; in general the result is the
    messages in their order, with a separator immediately before the first
    one and immediately before exactly those whose day is not the day of
    the message just before them in the input; the label of a separator is
    Today, else Yesterday, else the formatted date. *)
Theorem groupMessagesByDate_separators :
  groupMessagesByDate [] = []
  /\ (forall m, groupMessagesByDate [m] = [separator_of m; ItemMessage m])
  /\ (forall m ms, exists items,
         groupMessagesByDate (m :: ms) = separator_of m :: ItemMessage m :: items)
  /\ (forall ms p m,
         groupMessagesByDate (ms ++ [p; m])
         = groupMessagesByDate (ms ++ [p])
           ++ (if isSameDay (message_timestamp m) (message_timestamp p)
               then []
               else [separator_of m])
           ++ [ItemMessage m])
  /\ (forall ms, groupMessagesByDate ms = grouped_after None ms)
  /\ (forall m,
         separator_of m
         = ItemSeparator
             (mkDateSeparator
                (message_timestamp m)
                (if isToday (message_timestamp m) then "Today"
                 else if isYesterday (message_timestamp m) then "Yesterday"
                 else format (message_timestamp m) "EEEE, MMMM d, yyyy"))).
Proof.
  split; [reflexivity|].
  split; [intros m; reflexivity|].
  split.
  { intros m ms. rewrite groupMessagesByDate_grouped. cbn. eauto. }
  split.
  { intros ms p m. rewrite !groupMessagesByDate_grouped.
    replace (ms ++ [p; m]) with ((ms ++ [p]) ++ [m])
      by (rewrite <- app_assoc; reflexivity).
    rewrite (grouped_after_app None (ms ++ [p]) [m]).
    rewrite last_snoc. cbn.
    destruct (isSameDay (message_timestamp m) (message_timestamp p)); reflexivity. }
  split; [exact groupMessagesByDate_grouped|].
  intros m. reflexivity.
Qed.

End Grouping.

(** ** The notions of the specification and the functions of the code *)

Section SpecBridge.

Definition all_ascii : list ascii := map ascii_of_nat (seq 0 256).

Lemma in_all_ascii c : In c all_ascii.
Proof.
  unfold all_ascii. rewrite <- (ascii_nat_embedding c).
  apply in_map, in_seq. pose proof (nat_ascii_bounded c). lia.
Qed.

Lemma forall_ascii (P : ascii -> bool) :
  forallb P all_ascii = true -> forall c, P c = true.
Proof.
  intros H c. rewrite forallb_forall in H. apply H, in_all_ascii.
Qed.

(** Deciders for the notions on characters. *)
Definition white_space_b (c : ascii) : bool :=
  existsb (Nat.eqb (nat_of_ascii c)) [9; 10; 11; 12; 13; 32; 160].

Definition upper_case_code_b (n : nat) : bool :=
  ((65 <=? n) && (n <=? 90) || (192 <=? n) && (n <=? 214)
   || (216 <=? n) && (n <=? 222))%nat.

Definition case_pair_b (upper lower : ascii) : bool :=
  upper_case_code_b (nat_of_ascii upper)
  && (nat_of_ascii lower =? nat_of_ascii upper + 32)%nat.

Definition same_letter_b (a b : ascii) : bool :=
  Ascii.eqb a b || case_pair_b a b || case_pair_b b a.

Lemma white_space_b_spec c : white_space_b c = true <-> Spec.white_space c.
Proof.
  unfold white_space_b, Spec.white_space. rewrite existsb_exists. split.
  - intros (n & I & E). apply Nat.eqb_eq in E. rewrite E. exact I.
  - intros I. exists (nat_of_ascii c). split; [exact I | apply Nat.eqb_refl].
Qed.

Lemma upper_case_code_b_spec n :
  upper_case_code_b n = true <-> Spec.upper_case_code n.
Proof.
  unfold upper_case_code_b, Spec.upper_case_code.
  rewrite !orb_true_iff, !andb_true_iff, !Nat.leb_le. tauto.
Qed.

Lemma case_pair_b_spec u l : case_pair_b u l = true <-> Spec.case_pair u l.
Proof.
  unfold case_pair_b, Spec.case_pair.
  rewrite andb_true_iff, upper_case_code_b_spec, Nat.eqb_eq. reflexivity.
Qed.

Lemma same_letter_b_spec a b : same_letter_b a b = true <-> Spec.same_letter a b.
Proof.
  unfold same_letter_b, Spec.same_letter.
  rewrite !orb_true_iff, !case_pair_b_spec, Ascii.eqb_eq. tauto.
Qed.

(** The characters [trim] strips are the white space characters. *)
Lemma isWhiteSpace_spec c : Char.isWhiteSpace c = true <-> Spec.white_space c.
Proof.
  rewrite <- white_space_b_spec.
  assert (H : Bool.eqb (Char.isWhiteSpace c) (white_space_b c) = true).
  { revert c. apply forall_ascii. vm_compute. reflexivity. }
  apply Bool.eqb_prop in H. rewrite H. reflexivity.
Qed.

(** Two characters match under the [i] flag when they are the same letter. *)
Lemma eqb_i_spec a b : Char.eqb_i a b = true <-> Spec.same_letter a b.
Proof.
  rewrite <- same_letter_b_spec.
  assert (H : forallb (fun b => Bool.eqb (Char.eqb_i a b) (same_letter_b a b))
                      all_ascii = true).
  { revert a. apply forall_ascii. vm_compute. reflexivity. }
  pose proof (forall_ascii _ H b) as E. apply Bool.eqb_prop in E.
  rewrite E. reflexivity.
Qed.



Lemma all_whitespace_blank s : Str.all_whitespace s = true <-> Spec.blank s.
Proof.
  unfold Str.all_whitespace. induction s as [|c s IH]; simpl; [tauto|].
  rewrite andb_true_iff, IH, isWhiteSpace_spec. reflexivity.
Qed.



End SpecBridge.

(** ** getFilteredChannels *)

Section FilteredChannels.

Import Str Store.



Lemma trimStart_empty s : trimStart s = "" <-> all_whitespace s = true.
Proof.
  unfold all_whitespace. induction s as [|c s IH]; simpl; [tauto|].
  destruct (Char.isWhiteSpace c); simpl; [exact IH|].
  split; discriminate.
Qed.

Lemma trimEnd_empty_clean s : starts_clean s -> trimEnd s = "" -> s = "".
Proof.
  destruct s as [|c s]; simpl; [reflexivity|].
  intros ->. destruct (trimEnd s); discriminate.
Qed.

(** The trimmed string is empty exactly for white-space-only strings. *)
Lemma trim_empty s : trim s = "" <-> all_whitespace s = true.
Proof.
  rewrite <- trimStart_empty. unfold trim. split.
  - apply trimEnd_empty_clean, trimStart_clean.
  - intros ->. reflexivity.
Qed.




End FilteredChannels.


(** ** Error classification *)

Section Classification.

Import ErrorHandling.

Lemma some_test_false patterns message :
  Forall (fun pattern => RegExp.test_i pattern message = false) patterns ->
  some_test patterns message = false.
Proof.
  unfold some_test. induction 1 as [|p ps Hp _ IH]; simpl; [reflexivity|].
  rewrite Hp, IH. reflexivity.
Qed.

(** C9: an error named TypeError is a network error whatever its message;
    it is therefore retryable as soon as its message matches none of the
    validation patterns. *)
Theorem typeError_is_retryable (e : JSError) :
  error_name e = "TypeError" ->
  isNetworkError e = true
  /\ (error_name e <> "ValidationError" ->
      Forall (fun pattern => RegExp.test_i pattern (error_message e) = false)
             ["validation"; "invalid"; "required"; "format"] ->
      isRetryableError e = true).
Proof.
  intros N.
  assert (Net : isNetworkError e = true).
  { unfold isNetworkError. rewrite N. reflexivity. }
  split; [exact Net|].
  intros _ V. unfold isRetryableError, isValidationError.
  rewrite N. cbn [String.eqb Ascii.eqb Bool.eqb orb].
  change (some_test validationErrorPatterns (error_message e))
    with (some_test ["validation"; "invalid"; "required"; "format"] (error_message e)).
  rewrite (some_test_false _ _ V). rewrite Net. reflexivity.
Qed.

End Classification.

Lemma typeError_is_retryable_witness :
  let e := ErrorHandling.mkError "TypeError" "x is not a function" in
  ErrorHandling.isNetworkError e = true /\ ErrorHandling.isRetryableError e = true.
Proof.
  destruct (typeError_is_retryable
              (ErrorHandling.mkError "TypeError" "x is not a function"))
    as [Net Retry]; [reflexivity|].
  split; [exact Net|]. apply Retry; [discriminate|].
  repeat constructor.
Defined.

(** ** highlightSearchTerm *)

Section Highlight.

Import RegExp Search.

(** *** Escaping *)

Lemma close_paren_is_syntax c : Ascii.eqb c ")" = true -> isSyntaxCharacter c = true.
Proof. intros E. apply Ascii.eqb_eq in E as ->. reflexivity. Qed.

Lemma backslash_is_syntax c : Ascii.eqb c backslash = true -> isSyntaxCharacter c = true.
Proof. intros E. apply Ascii.eqb_eq in E as ->. reflexivity. Qed.

Lemma syntax_not_close_or_backslash c :
  isSyntaxCharacter c = false ->
  Ascii.eqb c ")" = false /\ Ascii.eqb c backslash = false.
Proof.
  intros H. split.
  - destruct (Ascii.eqb c ")") eqn:E; [|reflexivity].
    apply close_paren_is_syntax in E. congruence.
  - destruct (Ascii.eqb c backslash) eqn:E; [|reflexivity].
    apply backslash_is_syntax in E. congruence.
Qed.

(** The escaped term, read back as a pattern, is the term, character by
    character. *)
Lemma parse_escaped term :
  parse_group_body (escapeRegExp term ++ ")") = Some term.
Proof.
  induction term as [|c term IH]; [reflexivity|].
  cbn [escapeRegExp]. destruct (isSyntaxCharacter c) eqn:S.
  - change (String backslash (String c (escapeRegExp term)) ++ ")")
      with (String backslash (String c (escapeRegExp term ++ ")"))).
    cbn [parse_group_body].
    change (Ascii.eqb backslash ")") with false.
    change (Ascii.eqb backslash backslash) with true.
    cbv iota. rewrite S, IH. reflexivity.
  - change (String c (escapeRegExp term) ++ ")")
      with (String c (escapeRegExp term ++ ")")).
    cbn [parse_group_body].
    destruct (syntax_not_close_or_backslash c S) as [-> ->].
    rewrite S, IH. reflexivity.
Qed.

Lemma compile_escaped term :
  compile_group ("(" ++ escapeRegExp term ++ ")") = Some term.
Proof. apply parse_escaped. Qed.

(** *** Matching *)

Lemma string_length_app (a b : string) :
  String.length (a ++ b) = (String.length a + String.length b)%nat.
Proof. induction a as [|c a IH]; simpl; [reflexivity | rewrite IH; reflexivity]. Qed.

Lemma match_at_occurs t s m rest :
  match_at t s = Some (m, rest) <-> occurs_at t s m rest.
Proof.
  split.
  - revert s m rest. induction t as [|a t IH]; intros s m rest; simpl.
    + intros [= <- <-]. constructor.
    + destruct s as [|c s]; [discriminate|].
      destruct (Char.eqb_i a c) eqn:E; [|discriminate].
      destruct (match_at t s) as [[m' rest']|] eqn:M; [|discriminate].
      intros [= <- <-]. constructor; [exact E | apply IH, M].
  - induction 1 as [s | a c t s m rest E _ IH]; simpl.
    + reflexivity.
    + rewrite E, IH. reflexivity.
Qed.

Lemma occurs_at_split t s m rest :
  occurs_at t s m rest -> s = m ++ rest /\ String.length m = String.length t.
Proof.
  induction 1 as [s | a c t s m rest _ _ [-> IH]]; simpl; [split; reflexivity|].
  split; [reflexivity | rewrite IH; reflexivity].
Qed.

Lemma occurs_at_unique t s m rest m' rest' :
  occurs_at t s m rest -> occurs_at t s m' rest' -> m = m' /\ rest = rest'.
Proof.
  intros H H'. apply match_at_occurs in H, H'.
  rewrite H in H'. injection H' as -> ->. split; reflexivity.
Qed.

Lemma occurs_at_nonempty t s m rest :
  t <> "" -> occurs_at t s m rest -> s <> "" /\ m <> "".
Proof. intros Ht H. destruct H; [congruence | split; discriminate]. Qed.

(** *** Replacement *)

(** The characters counted by [skip] are passed over. *)
Lemma replace_loop_skip pat wrap m rest :
  replace_loop pat wrap (String.length m) (m ++ rest)
  = replace_loop pat wrap 0 rest.
Proof.
  induction m as [|c m IH]; [reflexivity|].
  simpl. exact IH.
Qed.

(** The replacement of a non-empty pattern wraps its occurrences from left
    to right. *)
Lemma replace_all_highlighted t text :
  t <> "" -> highlighted t text (replace_all t mark text).
Proof.
  intros Ht. unfold replace_all.
  remember (String.length text) as n eqn:Hn.
  revert text Hn. induction n as [n IH] using lt_wf_ind. intros text Hn.
  destruct text as [|c r].
  - simpl. destruct t as [|a t]; [congruence|]. simpl. constructor.
  - cbn [replace_loop].
    destruct (match_at t (String c r)) as [[m rest]|] eqn:M.
    + pose proof (proj1 (match_at_occurs _ _ _ _) M) as O.
      destruct (occurs_at_nonempty _ _ _ _ Ht O) as [_ Hm].
      destruct m as [|c' m']; [congruence|].
      destruct (occurs_at_split _ _ _ _ O) as [S _].
      injection S as <- ->.
      rewrite replace_loop_skip.
      assert (L : (String.length rest < n)%nat).
      { subst n. simpl. rewrite string_length_app. lia. }
      assert (R : highlighted t rest (replace_loop t mark 0 rest))
        by (apply (IH _ L); reflexivity).
      exact (highlighted_hit _ _ _ _ _ O R).
    + apply highlighted_keep.
      * intros m rest O. apply match_at_occurs in O. congruence.
      * apply (IH (String.length r)); [subst n; simpl; lia | reflexivity].
Qed.

(** For a non-empty term there is one way only to wrap its occurrences. *)
Lemma highlighted_unique t text out out' :
  t <> "" -> highlighted t text out -> highlighted t text out' -> out = out'.
Proof.
  intros Ht H. revert out'.
  induction H as [| text m rest out O _ IH | c text out N _ IH]; intros out' H'.
  - inversion H' as [| ? m rest ? O _ |]; subst; [reflexivity|].
    destruct (occurs_at_nonempty _ _ _ _ Ht O) as [E _]. congruence.
  - inversion H' as [E | ? m' rest' o' O' R' | c' text' o' N' R']; subst.
    + destruct (occurs_at_nonempty _ _ _ _ Ht O) as [E _]. congruence.
    + destruct (occurs_at_unique _ _ _ _ _ _ O O') as [-> ->].
      rewrite (IH _ R'). reflexivity.
    + exfalso. exact (N' _ _ O).
  - inversion H' as [| ? m' rest' o' O' R' | c' text' o' N' R']; subst.
    + exfalso. exact (N _ _ O').
    + rewrite (IH _ R'). reflexivity.
Qed.

(** What [highlightSearchTerm] returns. *)
Lemma highlightSearchTerm_eq text term :
  highlightSearchTerm text term
  = Some (if negb (Str.truthy (Str.trim term)) || negb (Str.truthy text)
          then text
          else replace_all (Str.trim term) mark text).
Proof.
  unfold highlightSearchTerm.
  destruct (negb (Str.truthy (Str.trim term)) || negb (Str.truthy text));
    [reflexivity|].
  rewrite compile_escaped. reflexivity.
Qed.

(** *** The code's relations and the notions of the specification *)

Lemma mark_wrapped m : mark m = Spec.wrapped m.
Proof. reflexivity. Qed.

Lemma occurs_at_spec t s m rest :
  occurs_at t s m rest <-> Spec.occurs_at t s m rest.
Proof.
  unfold Spec.occurs_at. split.
  - induction 1 as [s | a c t s m rest E _ [-> IH]]; [split; [reflexivity | exact I]|].
    split; [reflexivity|]. simpl. split; [|exact IH].
    apply eqb_i_spec in E. unfold Spec.same_letter in *.
    destruct E as [->|[E|E]]; auto.
  - revert s m. induction t as [|a t IH]; intros s m [-> T].
    + destruct m; [constructor | destruct T].
    + destruct m as [|c m]; [destruct T|]. destruct T as [L T].
      simpl. constructor.
      * apply eqb_i_spec. unfold Spec.same_letter in *.
        destruct L as [->|[E|E]]; auto.
      * apply IH. split; [reflexivity | exact T].
Qed.

Lemma highlighted_spec t text out :
  highlighted t text out <-> Spec.highlighted t text out.
Proof.
  split.
  - induction 1 as [| text m rest out O _ IH | c text out N _ IH].
    + constructor.
    + rewrite mark_wrapped.
      apply (Spec.highlighted_hit t text m rest out); [apply occurs_at_spec, O | exact IH].
    + apply Spec.highlighted_keep; [|exact IH].
      intros m rest O. apply occurs_at_spec in O. exact (N _ _ O).
  - induction 1 as [| text m rest out O _ IH | c text out N _ IH].
    + constructor.
    + rewrite <- mark_wrapped.
      apply (highlighted_hit t text m rest out); [apply occurs_at_spec, O | exact IH].
    + apply highlighted_keep; [|exact IH].
      intros m rest O. apply occurs_at_spec in O. exact (N _ _ O).
Qed.

(** *** Trimming and the trimmed core *)

Lemma not_white_space c : ~ Spec.white_space c <-> Char.isWhiteSpace c = false.
Proof.
  rewrite <- isWhiteSpace_spec. destruct (Char.isWhiteSpace c); split; congruence.
Qed.

Lemma trimStart_app_blank lead s :
  Spec.blank lead -> Str.trimStart (lead ++ s) = Str.trimStart s.
Proof.
  induction lead as [|c lead IH]; [reflexivity|]. intros [W B]. simpl.
  apply isWhiteSpace_spec in W. rewrite W. apply IH, B.
Qed.

Lemma trimStart_blank s : Spec.blank s -> Str.trimStart s = "".
Proof.
  induction s as [|c s IH]; [reflexivity|]. intros [W B]. simpl.
  apply isWhiteSpace_spec in W. rewrite W. apply IH, B.
Qed.

Lemma trimEnd_blank s : Spec.blank s -> Str.trimEnd s = "".
Proof.
  induction s as [|c s IH]; [reflexivity|]. intros [W B]. simpl.
  rewrite (IH B). apply isWhiteSpace_spec in W. rewrite W. reflexivity.
Qed.

Lemma trimEnd_app_blank s trail :
  Spec.blank trail -> Str.trimEnd (s ++ trail) = Str.trimEnd s.
Proof.
  intros B. induction s as [|c s IH]; [apply trimEnd_blank, B|].
  simpl. rewrite IH. reflexivity.
Qed.

Lemma trimEnd_no_end_space s : ~ Spec.ends_with_space s -> Str.trimEnd s = s.
Proof.
  induction s as [|c s IH]; [reflexivity|]. intros N.
  destruct s as [|d r].
  - simpl in *. apply not_white_space in N. rewrite N. reflexivity.
  - change (Str.trimEnd (String c (String d r)))
      with (match Str.trimEnd (String d r) with
            | EmptyString => if Char.isWhiteSpace c then EmptyString
                             else String c EmptyString
            | r' => String c r'
            end).
    rewrite IH by exact N. reflexivity.
Qed.

Lemma trimStart_decompose s :
  exists lead, s = lead ++ Str.trimStart s /\ Spec.blank lead.
Proof.
  induction s as [|c s (lead & E & B)]; [exists ""; split; [reflexivity | exact I]|].
  cbn [Str.trimStart]. destruct (Char.isWhiteSpace c) eqn:W.
  - exists (String c lead). split.
    + change (String c lead ++ Str.trimStart s)
        with (String c (lead ++ Str.trimStart s)).
      f_equal. exact E.
    + split; [apply isWhiteSpace_spec, W | exact B].
  - exists "". split; [reflexivity | exact I].
Qed.

Lemma trimEnd_decompose s :
  exists trail, s = Str.trimEnd s ++ trail /\ Spec.blank trail.
Proof.
  induction s as [|c s (trail & E & B)]; [exists ""; split; [reflexivity | exact I]|].
  cbn [Str.trimEnd]. destruct (Str.trimEnd s) as [|d r] eqn:T.
  - change ("" ++ trail) with trail in E. subst s.
    destruct (Char.isWhiteSpace c) eqn:W.
    + exists (String c trail). split; [reflexivity|].
      split; [apply isWhiteSpace_spec, W | exact B].
    + exists trail. split; [reflexivity | exact B].
  - exists trail. split; [|exact B].
    change (String c (String d r) ++ trail) with (String c (String d r ++ trail)).
    f_equal. exact E.
Qed.

Lemma trimEnd_not_end_space s : ~ Spec.ends_with_space (Str.trimEnd s).
Proof.
  induction s as [|c s IH]; [intros []|]. simpl.
  destruct (Str.trimEnd s) as [|d r] eqn:T.
  - destruct (Char.isWhiteSpace c) eqn:W; [intros []|].
    simpl. apply not_white_space, W.
  - exact IH.
Qed.

Lemma starts_clean_spec s : Str.starts_clean s <-> ~ Spec.starts_with_space s.
Proof.
  destruct s as [|c s]; simpl; [tauto|]. symmetry. apply not_white_space.
Qed.

(** The result of [trim] is the trimmed core of its argument. *)
Lemma trim_is_core term : Spec.trimmed_core term (Str.trim term).
Proof.
  destruct (trimStart_decompose term) as (lead & E1 & B1).
  destruct (trimEnd_decompose (Str.trimStart term)) as (trail & E2 & B2).
  exists lead, trail. unfold Str.trim.
  split; [rewrite <- E2; exact E1|]. split; [exact B1|]. split; [exact B2|].
  split; [|apply trimEnd_not_end_space].
  apply starts_clean_spec, trimEnd_clean, trimStart_clean.
Qed.

(** A term has no other trimmed core. *)
Lemma core_is_trim term core : Spec.trimmed_core term core -> Str.trim term = core.
Proof.
  intros (lead & trail & -> & B1 & B2 & N1 & N2). unfold Str.trim.
  rewrite (trimStart_app_blank lead _ B1).
  destruct core as [|c r].
  - change ("" ++ trail) with trail.
    rewrite (trimStart_blank trail B2). reflexivity.
  - simpl in N1. apply not_white_space in N1.
    change (String c r ++ trail) with (String c (r ++ trail)).
    cbn [Str.trimStart]. rewrite N1.
    change (String c (r ++ trail)) with (String c r ++ trail).
    rewrite (trimEnd_app_blank _ trail B2). apply trimEnd_no_end_space, N2.
Qed.

Lemma blank_core term : Spec.blank term <-> Str.trim term = "".
Proof. rewrite trim_empty. symmetry. apply all_whitespace_blank. Qed.

(** *** What highlighting gives *)

Lemma highlightSearchTerm_trimmed text term :
  Str.trim term <> "" ->
  exists out,
    highlightSearchTerm text term = Some out
    /\ Spec.highlighted (Str.trim term) text out
    /\ forall out', Spec.highlighted (Str.trim term) text out' -> out' = out.
Proof.
  intros Ht.
  assert (H : exists out, highlightSearchTerm text term = Some out
                          /\ highlighted (Str.trim term) text out).
  { rewrite highlightSearchTerm_eq.
    destruct (Str.trim term) as [|a t] eqn:E; [congruence|].
    destruct text as [|c r]; cbn [Str.truthy negb orb].
    - exists "". split; [reflexivity | constructor].
    - eexists. split; [reflexivity|].
      apply replace_all_highlighted. discriminate. }
  destruct H as (out & E & H). exists out.
  split; [exact E|]. split; [apply highlighted_spec, H|].
  intros out' H'. apply highlighted_spec in H'.
  exact (highlighted_unique _ _ _ _ Ht H' H).
Qed.

Lemma highlightSearchTerm_blank text term :
  Str.trim term = "" -> highlightSearchTerm text term = Some text.
Proof. intros E. rewrite highlightSearchTerm_eq, E. reflexivity. Qed.

(** C6, amended: an empty term or an empty text gives the text back; the
    term is first trimmed to its core, the term without the white space
    around it, and when nothing is left of it the text is given back too;
    otherwise the occurrences of the core, up to the case of letters and
    taken from left to right without overlap, are each wrapped in the
    marker and the rest of the text is kept; the expression built from the
    escaped core matches the core character by character. *)
Theorem highlightSearchTerm_wraps (text term : string) :
  highlightSearchTerm text "" = Some text
  /\ highlightSearchTerm "" term = Some ""
  /\ compile_group ("(" ++ escapeRegExp (Str.trim term) ++ ")")
     = Some (Str.trim term)
  /\ (forall core, Spec.trimmed_core term core <-> core = Str.trim term)
  /\ (Str.trim term = "" -> highlightSearchTerm text term = Some text)
  /\ (Str.trim term <> "" ->
      exists out,
        highlightSearchTerm text term = Some out
        /\ Spec.highlighted (Str.trim term) text out
        /\ forall out', Spec.highlighted (Str.trim term) text out' -> out' = out).
Proof.
  split; [reflexivity|].
  split.
  { rewrite highlightSearchTerm_eq. cbn [Str.truthy negb].
    rewrite orb_true_r. reflexivity. }
  split; [apply compile_escaped|].
  split.
  { intros core. split.
    - intros H. symmetry. apply core_is_trim, H.
    - intros ->. apply trim_is_core. }
  split; [apply highlightSearchTerm_blank | apply highlightSearchTerm_trimmed].
Qed.

(** C10, amended: the term is trimmed before matching: highlighting with a
    term is highlighting with its core, the term without the white space
    around it; a white-space-only term gives the text back, and any other
    term wraps the occurrences of its core, up to the case of letters and
    taken from left to right without overlap. *)
Theorem highlightSearchTerm_trims (text term core : string) :
  Spec.trimmed_core term core ->
  highlightSearchTerm text term = highlightSearchTerm text core
  /\ (Spec.blank term -> highlightSearchTerm text term = Some text)
  /\ (core = "" -> highlightSearchTerm text term = Some text)
  /\ (core <> "" ->
      exists out,
        highlightSearchTerm text term = Some out
        /\ Spec.highlighted core text out
        /\ forall out', Spec.highlighted core text out' -> out' = out).
Proof.
  intros C. apply core_is_trim in C. subst core.
  split; [rewrite !highlightSearchTerm_eq, trim_idem; reflexivity|].
  split; [intros B; apply highlightSearchTerm_blank, blank_core, B|].
  split; [apply highlightSearchTerm_blank | apply highlightSearchTerm_trimmed].
Qed.

(** C6 as the specification states it fails: the term made of one space is
    not empty and occurs in the text, yet the text comes back without any
    marker. *)
Lemma highlightSearchTerm_space_term :
  " " <> "" /\ "a b" <> ""
  /\ "a b" = "a" ++ " " ++ "b"
  /\ Spec.contains_ignoring_case "a b" " "
  /\ highlightSearchTerm "a b" " " = Some "a b"
  /\ ~ Spec.highlighted " " "a b" "a b".
Proof.
  do 2 (split; [discriminate|]). split; [reflexivity|].
  split.
  { exists "a", " ", "b". split; [reflexivity|]. simpl. split; [left; reflexivity | exact I]. }
  split; [reflexivity|].
  intros H. apply highlighted_spec in H.
  assert (N : " " <> "") by discriminate.
  pose proof (highlighted_unique _ _ _ _ N H (replace_all_highlighted " " "a b" N)) as E.
  vm_compute in E. discriminate E.
Qed.

(** C10 as the claim states it fails: the core aa of the padded term
    occurs twice in aaa, at the first and at the second character, and
    only the first occurrence is wrapped: what follows the marker is the
    bare last character. *)
Lemma highlightSearchTerm_padded_overlap :
  Spec.trimmed_core " aa " "aa"
  /\ Spec.occurs_at "aa" "aaa" "aa" "a"
  /\ Spec.occurs_at "aa" "aa" "aa" ""
  /\ "aaa" = "a" ++ "aa"
  /\ highlightSearchTerm "aaa" " aa " = Some (Spec.wrapped "aa" ++ "a").
Proof.
  split.
  { replace "aa" with (Str.trim " aa ") at 2 by reflexivity. apply trim_is_core. }
  assert (L : Spec.same_text "aa" "aa").
  { simpl. split; [left; reflexivity|]. split; [left; reflexivity | exact I]. }
  unfold Spec.occurs_at.
  split; [split; [reflexivity | exact L]|].
  split; [split; [reflexivity | exact L]|].
  split; reflexivity.
Qed.

End Highlight.

Lemma highlightSearchTerm_wraps_witness :
  exists out,
    Search.highlightSearchTerm "Hello World" "WORLD" = Some out
    /\ Spec.highlighted "WORLD" "Hello World" out
    /\ out = "Hello " ++ Spec.marker_open ++ "World" ++ Spec.marker_close.
Proof.
  destruct (highlightSearchTerm_wraps "Hello World" "WORLD")
    as (_ & _ & _ & _ & _ & W).
  destruct W as (out & E & H & _); [discriminate|].
  exists out. split; [exact E|]. split; [exact H|].
  vm_compute in E. injection E as <-. reflexivity.
Defined.

Lemma highlightSearchTerm_trims_witness :
  Search.highlightSearchTerm "a Foo b" "  foo "
  = Some ("a " ++ Spec.marker_open ++ "Foo" ++ Spec.marker_close ++ " b").
Proof.
  rewrite (proj1 (highlightSearchTerm_trims "a Foo b" "  foo " "foo"
                    (trim_is_core "  foo "))).
  reflexivity.
Defined.

(** Occurrences that overlap: the second one starts inside the first and
    is not wrapped. *)
Example highlightSearchTerm_overlap :
  Search.highlightSearchTerm "aaa" "aa"
  = Some (Search.mark "aa" ++ "a").
Proof. reflexivity. Qed.

Example highlightSearchTerm_padded_term :
  Search.highlightSearchTerm "a Foo b" "  foo "
  = Some ("a " ++ Search.mark "Foo" ++ " b").
Proof. reflexivity. Qed.

Example highlightSearchTerm_parentheses :
  Search.highlightSearchTerm "test (hello) world" "(hello)"
  = Some ("test " ++ Search.mark "(hello)" ++ " world").
Proof. reflexivity. Qed.

(** * Further properties *)

(** ** The persistence adapter on a store that works *)

Section WorkingStore.

Import Storage.
Local Open Scope storage_scope.

Variable JSON_parse : string -> option JSONValue.
Variable JSON_stringify : Settings -> string.

(** The store after a successful probe: the test key is gone, two accesses
    were made. *)
Definition probed (ls : LocalStorage) : LocalStorage :=
  mkLS (delete storage_test (items ls)) (throwsAt ls) (S (S (accesses ls))).

Lemma never_throws_same ls it n :
  never_throws ls -> never_throws (mkLS it (throwsAt ls) n).
Proof. intros H k. apply H. Qed.

Lemma access_working {A} (f : gmap string string -> A * gmap string string) ls :
  never_throws ls ->
  access f ls
  = (inr (fst (f (items ls))),
     mkLS (snd (f (items ls))) (throwsAt ls) (S (accesses ls))).
Proof.
  intros H. unfold access. rewrite H. destruct (f (items ls)); reflexivity.
Qed.

Lemma probe_working ls :
  never_throws ls -> isStorageAvailable ls = (inr true, probed ls).
Proof.
  intros H. rewrite (isStorageAvailable_working ls H).
  unfold probed. rewrite delete_insert_eq. reflexivity.
Qed.

Lemma bind_probe_working {A} (k : bool -> M A) ls :
  never_throws ls -> bind isStorageAvailable k ls = k true (probed ls).
Proof. intros H. unfold bind. rewrite (probe_working ls H). reflexivity. Qed.

Lemma never_throws_probed ls : never_throws ls -> never_throws (probed ls).
Proof. intros H k. apply H. Qed.

Lemma getTheme_working ls :
  never_throws ls ->
  getTheme ls
  = (inr (default Light (items ls !! THEME ≫= parse_theme)),
     mkLS (delete storage_test (items ls)) (throwsAt ls) (S (S (S (accesses ls))))).
Proof.
  intros H. unfold getTheme. rewrite (bind_probe_working _ ls H). cbn [negb].
  unfold bind, try_catch, getItem.
  rewrite (access_working _ (probed ls) (never_throws_probed ls H)). cbn.
  rewrite lookup_delete_ne by discriminate.
  destruct (items ls !! THEME) as [s|]; cbn; [|reflexivity].
  destruct s as [|c r]; cbn; [reflexivity|].
  destruct (parse_theme (String c r)); reflexivity.
Qed.

Lemma parse_theme_string t : parse_theme (theme_string t) = Some t.
Proof. destruct t; reflexivity. Qed.

Lemma parse_theme_Some s t : parse_theme s = Some t -> s = theme_string t.
Proof.
  unfold parse_theme.
  destruct (String.eqb_spec s "light") as [->|_]; [intros [= <-]; reflexivity|].
  destruct (String.eqb_spec s "dark") as [->|_]; [intros [= <-]; reflexivity|].
  destruct (String.eqb_spec s "system") as [->|_]; [intros [= <-]; reflexivity|].
  discriminate.
Qed.

(** X2: on a store that works, [getTheme] returns the theme whose name is
    stored under the theme key, and [light] when the key is missing or holds
    anything else. *)
Theorem getTheme_reads_or_defaults ls :
  never_throws ls ->
  (forall t, items ls !! THEME = Some (theme_string t) -> fst (getTheme ls) = inr t)
  /\ ((forall t, items ls !! THEME <> Some (theme_string t)) ->
      fst (getTheme ls) = inr Light).
Proof.
  intros H. rewrite (getTheme_working ls H). cbn [fst]. split.
  - intros t ->. cbn. rewrite parse_theme_string. reflexivity.
  - intros N. destruct (items ls !! THEME) as [s|] eqn:E; cbn; [|reflexivity].
    destruct (parse_theme s) as [t|] eqn:P; [|reflexivity].
    apply parse_theme_Some in P. subst s. destruct (N t). reflexivity.
Qed.

(** X3: on a store that works, the theme written by [setTheme] is the one
    [getTheme] reads back. *)
Theorem setTheme_getTheme ls (t : Theme) :
  never_throws ls ->
  fst ((setTheme t >> getTheme) ls) = inr t.
Proof.
  intros H. unfold bind. rewrite (setTheme_working t ls H).
  rewrite getTheme_working by (apply never_throws_same, H). cbn [fst items].
  rewrite lookup_insert_eq. cbn. rewrite parse_theme_string. reflexivity.
Qed.

End WorkingStore.

Section SettingsStore.

Import Storage.
Local Open Scope storage_scope.

Variable JSON_parse : string -> option JSONValue.
Variable JSON_stringify : Settings -> string.

(** What [getSettings] makes of the text found under the settings key. *)
Definition settings_of_text (stored : option string) : Settings :=
  match stored with
  | Some (String _ _ as s) =>
      match JSON_parse s with
      | Some (JObject o) => o
      | Some JOther | None => empty_settings
      end
  | Some EmptyString | None => empty_settings
  end.

Lemma getSettings_eval ls :
  never_throws ls ->
  getSettings JSON_parse ls
  = (inr (settings_of_text (items ls !! SETTINGS)),
     mkLS (delete storage_test (items ls)) (throwsAt ls) (S (S (S (accesses ls))))).
Proof.
  intros H. unfold getSettings. rewrite (bind_probe_working _ ls H). cbn [negb].
  unfold bind, try_catch, getItem.
  rewrite (access_working _ (probed ls) (never_throws_probed ls H)). cbn.
  rewrite lookup_delete_ne by discriminate.
  destruct (items ls !! SETTINGS) as [s|]; cbn; [|reflexivity].
  destruct s as [|c r]; cbn; [reflexivity|].
  destruct (JSON_parse (String c r)) as [[o|]|]; reflexivity.
Qed.

(** X4: on a store that works, [getSettings] returns the object parsed
    from the settings key, and the empty object when the key is missing,
    holds the empty text, holds text that [JSON.parse] rejects, or holds
    JSON that is not an object. *)
Theorem getSettings_reads_or_defaults ls :
  never_throws ls ->
  fst (getSettings JSON_parse ls)
  = inr (match items ls !! SETTINGS with
         | None => empty_settings
         | Some s =>
             if String.eqb s "" then empty_settings
             else match JSON_parse s with
                  | Some (JObject o) => o
                  | Some JOther => empty_settings
                  | None => empty_settings
                  end
         end).
Proof.
  intros H. rewrite (getSettings_eval ls H). cbn [fst].
  destruct (items ls !! SETTINGS) as [[|c r]|]; reflexivity.
Qed.

Lemma setSettings_eval ls (p : Settings) :
  never_throws ls ->
  setSettings JSON_parse JSON_stringify p ls
  = (inr tt,
     mkLS (<[SETTINGS :=
               JSON_stringify (merge (settings_of_text (items ls !! SETTINGS)) p)]>
             (delete storage_test (items ls)))
          (throwsAt ls) (6 + accesses ls)).
Proof.
  intros H. unfold setSettings. rewrite (bind_probe_working _ ls H). cbn [negb].
  unfold try_catch, bind.
  rewrite (getSettings_eval (probed ls) (never_throws_probed ls H)).
  unfold setItem. rewrite access_working by (apply never_throws_same, H).
  cbn. rewrite lookup_delete_ne by discriminate.
  rewrite delete_delete_eq. reflexivity.
Qed.

(** X5: on a store that works, and when the platform reads back the text
    it writes for the merged object, [getSettings] after [setSettings p]
    returns the previous settings with the fields of [p] laid over them:
    fields that [p] leaves out are kept. *)
Theorem setSettings_merges ls (p : Settings) :
  never_throws ls ->
  let merged := merge (settings_of_text (items ls !! SETTINGS)) p in
  JSON_stringify merged <> "" ->
  JSON_parse (JSON_stringify merged) = Some (JObject merged) ->
  fst (getSettings JSON_parse ls) = inr (settings_of_text (items ls !! SETTINGS))
  /\ fst ((setSettings JSON_parse JSON_stringify p >> getSettings JSON_parse) ls)
     = inr merged
  /\ (settings_sidebarOpen p = None ->
      settings_sidebarOpen merged
      = settings_sidebarOpen (settings_of_text (items ls !! SETTINGS)))
  /\ (settings_lastActiveChannel p = None ->
      settings_lastActiveChannel merged
      = settings_lastActiveChannel (settings_of_text (items ls !! SETTINGS))).
Proof.
  intros H merged Hne Hrt.
  split; [rewrite (getSettings_eval ls H); reflexivity|].
  split.
  - unfold bind. rewrite (setSettings_eval ls p H).
    rewrite getSettings_eval by (apply never_throws_same, H). cbn [fst items].
    rewrite lookup_insert_eq. fold merged. unfold settings_of_text.
    destruct (JSON_stringify merged) as [|c r] eqn:E; [congruence|].
    rewrite Hrt. reflexivity.
  - subst merged. unfold merge. cbn. split; intros ->; reflexivity.
Qed.

Lemma clearAll_eval ls :
  never_throws ls ->
  clearAll ls
  = (inr tt,
     mkLS (delete SETTINGS (delete THEME (delete storage_test (items ls))))
          (throwsAt ls) (4 + accesses ls)).
Proof.
  intros H. unfold clearAll. rewrite (bind_probe_working _ ls H). cbn [negb].
  unfold try_catch, bind, removeItem.
  rewrite (access_working _ (probed ls) (never_throws_probed ls H)). cbn.
  rewrite access_working by (apply never_throws_same, H). reflexivity.
Qed.

(** X6: on a store that works, after [clearAll] the theme reads as [light]
    and the settings as the empty object, whatever was stored before. *)
Theorem clearAll_resets ls :
  never_throws ls ->
  fst ((clearAll >> getTheme) ls) = inr Light
  /\ fst ((clearAll >> getSettings JSON_parse) ls) = inr empty_settings.
Proof.
  intros H. unfold bind. rewrite (clearAll_eval ls H). split.
  - rewrite getTheme_working by (apply never_throws_same, H). cbn [fst items].
    rewrite lookup_delete_ne by discriminate. rewrite lookup_delete_eq. reflexivity.
  - rewrite getSettings_eval by (apply never_throws_same, H). cbn [fst items].
    rewrite lookup_delete_eq. reflexivity.
Qed.

(** X1: no exception escapes any method of the adapter, whichever calls on
    the store throw: each method returns a value. *)
Theorem storage_contains_failures ls (t : Theme) (p : Settings) :
  (exists r ls', getTheme ls = (inr r, ls'))
  /\ (exists r ls', getSettings JSON_parse ls = (inr r, ls'))
  /\ (exists ls', setTheme t ls = (inr tt, ls'))
  /\ (exists ls', setSettings JSON_parse JSON_stringify p ls = (inr tt, ls'))
  /\ (exists ls', clearAll ls = (inr tt, ls')).
Proof.
  destruct (getTheme_contained ls) as (r1 & l1 & E1 & _).
  destruct (getSettings_contained JSON_parse ls) as (r2 & l2 & E2 & _).
  destruct (setTheme_contained t ls) as ([] & l3 & E3 & _).
  destruct (setSettings_contained JSON_parse JSON_stringify p ls) as ([] & l4 & E4 & _).
  destruct (clearAll_contained ls) as ([] & l5 & E5 & _).
  repeat split; eauto.
Qed.

End SettingsStore.

(** ** The store and its persisted preferences *)

Section StorePersistence.

Import Storage Store.
Local Open Scope storage_scope.

Variable JSON_parse : string -> option JSONValue.
Variable JSON_stringify : Settings -> string.
Variable mockChannels : list Channel.
Variable mockMessages : gmap string (list Message).

Local Abbreviation setActiveChannel := (setActiveChannel JSON_parse JSON_stringify).
Local Abbreviation toggleSidebar := (toggleSidebar JSON_parse JSON_stringify).
Local Abbreviation initializeStore := (initializeStore JSON_parse).
Local Abbreviation loadMockData :=
  (loadMockData JSON_parse mockChannels mockMessages).
Local Abbreviation stored_settings := (settings_of_text JSON_parse).

(** X7: [setActiveChannel] makes the given identifier the active channel
    whichever calls on the store throw, and without looking at the loaded
    channels; nothing else in the state changes. *)
Theorem setActiveChannel_always (id : string) st ls :
  exists ls',
    setActiveChannel id st ls = (inr (set_activeChannelId (Some id) st), ls')
    /\ activeChannelId (set_activeChannelId (Some id) st) = Some id
    /\ channels (set_activeChannelId (Some id) st) = channels st
    /\ messages (set_activeChannelId (Some id) st) = messages st.
Proof.
  unfold Store.setActiveChannel, bind.
  destruct (setSettings_contained JSON_parse JSON_stringify
              (mkSettings None (Some id)) ls) as ([] & ls' & -> & _).
  exists ls'. repeat split.
Qed.

(** X8: on a store that works, and when the platform reads back the
    settings text it writes, the channel chosen with [setActiveChannel] is
    the active channel after the next [loadMockData]. *)
Theorem setActiveChannel_survives_reload (id : string) st st0 ls :
  never_throws ls ->
  id <> "" ->
  let merged := merge (stored_settings (items ls !! SETTINGS))
                      (mkSettings None (Some id)) in
  JSON_stringify merged <> "" ->
  JSON_parse (JSON_stringify merged) = Some (JObject merged) ->
  exists st' ls',
    (setActiveChannel id st >> loadMockData st0) ls = (inr st', ls')
    /\ activeChannelId st' = Some id.
Proof.
  intros H Hid merged Hne Hrt.
  unfold Store.setActiveChannel, Store.loadMockData, bind, ret.
  rewrite (setSettings_eval JSON_parse JSON_stringify ls _ H). cbv beta iota.
  rewrite getSettings_eval by (apply never_throws_same, H). cbn [items].
  rewrite lookup_insert_eq. fold merged.
  eexists. eexists. split; [reflexivity|]. cbn [activeChannelId].
  unfold settings_of_text.
  destruct (JSON_stringify merged) as [|c r] eqn:E; [congruence|].
  rewrite Hrt. subst merged. unfold defaultActiveChannel, merge. cbn.
  destruct id; [congruence | reflexivity].
Qed.

Lemma set_sidebarOpen_twice st :
  set_sidebarOpen (negb (sidebarOpen (set_sidebarOpen (negb (sidebarOpen st)) st)))
                  (set_sidebarOpen (negb (sidebarOpen st)) st) = st.
Proof. destruct st as [? ? ? ? b ? ? ?]. cbn. rewrite negb_involutive. reflexivity. Qed.

(** X9: [toggleSidebar] flips the flag whichever calls on the store throw,
    and two calls in a row give the state back. *)
Theorem toggleSidebar_involution st ls :
  (exists ls',
      toggleSidebar st ls = (inr (set_sidebarOpen (negb (sidebarOpen st)) st), ls'))
  /\ (exists ls2,
         (let! s1 := toggleSidebar st in toggleSidebar s1) ls = (inr st, ls2)).
Proof.
  assert (Step : forall s l, exists l',
             toggleSidebar s l = (inr (set_sidebarOpen (negb (sidebarOpen s)) s), l')).
  { intros s l. unfold Store.toggleSidebar, bind.
    destruct (setSettings_contained JSON_parse JSON_stringify
                (mkSettings (Some (negb (sidebarOpen s))) None) l)
      as ([] & l' & -> & _).
    exists l'. reflexivity. }
  split; [apply Step|].
  destruct (Step st ls) as (l1 & E1).
  destruct (Step (set_sidebarOpen (negb (sidebarOpen st)) st) l1) as (l2 & E2).
  exists l2. unfold bind at 1. rewrite E1, E2. rewrite set_sidebarOpen_twice.
  reflexivity.
Qed.

(** X10: on a store that works, and when the platform reads back the
    settings text it writes, [toggleSidebar] stores the new flag and keeps
    the persisted last-active channel: the settings are merged, not
    overwritten. *)
Theorem toggleSidebar_keeps_last_channel st ls :
  never_throws ls ->
  let merged := merge (stored_settings (items ls !! SETTINGS))
                      (mkSettings (Some (negb (sidebarOpen st))) None) in
  JSON_stringify merged <> "" ->
  JSON_parse (JSON_stringify merged) = Some (JObject merged) ->
  exists settings,
    fst ((toggleSidebar st >> getSettings JSON_parse) ls) = inr settings
    /\ settings_sidebarOpen settings = Some (negb (sidebarOpen st))
    /\ settings_lastActiveChannel settings
       = settings_lastActiveChannel (stored_settings (items ls !! SETTINGS)).
Proof.
  intros H merged Hne Hrt. exists merged.
  split; [|split; reflexivity].
  unfold Store.toggleSidebar, bind, ret.
  rewrite (setSettings_eval JSON_parse JSON_stringify ls _ H). cbv beta iota.
  rewrite getSettings_eval by (apply never_throws_same, H). cbn [fst items].
  rewrite lookup_insert_eq. fold merged. unfold settings_of_text.
  destruct (JSON_stringify merged) as [|c r] eqn:E; [congruence|].
  rewrite Hrt. reflexivity.
Qed.

(** X11: [initializeStore] never fails; on a store of which every call
    throws it sets the defaults, theme [light] and an open sidebar, and
    leaves the rest of the state alone. *)
Theorem initializeStore_defaults st ls :
  (exists st' ls', initializeStore st ls = (inr st', ls'))
  /\ (always_throws ls ->
      fst (initializeStore st ls)
      = inr (mkAppState (channels st) (activeChannelId st) (messages st) Light
                        true (searchQuery st) (isLoading st) (error st))).
Proof.
  split.
  - unfold Store.initializeStore, bind.
    destruct (getTheme_contained ls) as (t & l1 & -> & _).
    destruct (getSettings_contained JSON_parse l1) as (s & l2 & -> & _).
    eauto.
  - intros H. unfold Store.initializeStore, bind at 1.
    unfold getTheme. rewrite (bind_probe_throwing _ ls H). cbn.
    unfold bind, getSettings.
    rewrite bind_probe_throwing by (intros n; apply H). reflexivity.
Qed.

(** X12: on a store that works, the theme chosen with [toggleTheme] is the
    theme a later [initializeStore] sets, from whatever state it starts. *)
Theorem toggleTheme_survives_reload st st0 ls :
  never_throws ls ->
  exists st' ls',
    (toggleTheme st >> initializeStore st0) ls = (inr st', ls')
    /\ theme st' = nextTheme (theme st).
Proof.
  intros H. unfold Store.toggleTheme, Store.initializeStore, bind, ret.
  rewrite (setTheme_working _ ls H). cbv beta iota.
  rewrite getTheme_working by (apply never_throws_same, H). cbv beta iota.
  rewrite getSettings_eval by (apply never_throws_same, H). cbn [items].
  eexists. eexists. split; [reflexivity|]. cbn [theme].
  rewrite lookup_insert_eq. cbn. rewrite parse_theme_string. reflexivity.
Qed.

End StorePersistence.

(** ** More on groupMessagesByDate *)

Section GroupingShape.

Import Timestamp.
Local Open Scope list_scope.

Variable isSameDay : Z -> Z -> bool.
Variable isToday : Z -> bool.
Variable isYesterday : Z -> bool.
Variable format : Z -> string -> string.

Local Abbreviation separator_of := (separator_of isToday isYesterday format).
Local Abbreviation grouped_after := (grouped_after isSameDay isToday isYesterday format).
Local Abbreviation groupMessagesByDate :=
  (groupMessagesByDate isSameDay isToday isYesterday format).

(** The messages among the items of a rendered sequence. *)
Definition messages_of (items : list MessageItem) : list Message :=
  flat_map (fun item => match item with
                        | ItemMessage m => [m]
                        | ItemSeparator _ => []
                        end) items.

Lemma messages_of_app a b : messages_of (a ++ b) = messages_of a ++ messages_of b.
Proof. unfold messages_of. apply flat_map_app. Qed.

Lemma messages_of_grouped prev ms : messages_of (grouped_after prev ms) = ms.
Proof.
  revert prev. induction ms as [|m ms IH]; intros prev; [reflexivity|].
  cbn [Timestamp.grouped_after]. rewrite messages_of_app.
  change (messages_of (ItemMessage m :: grouped_after (Some m) ms))
    with (m :: messages_of (grouped_after (Some m) ms)).
  rewrite IH.
  destruct prev as [p|]; [|reflexivity].
  destruct (isSameDay (message_timestamp m) (message_timestamp p)); reflexivity.
Qed.

Lemma grouped_length prev ms :
  length ms <= length (grouped_after prev ms) <= 2 * length ms.
Proof.
  revert prev. induction ms as [|m ms IH]; intros prev; [simpl; lia|].
  cbn [Timestamp.grouped_after]. rewrite length_app. cbn [length].
  specialize (IH (Some m)).
  destruct prev as [p|]; [|cbn [length]; lia].
  destruct (isSameDay (message_timestamp m) (message_timestamp p));
    cbn [length]; lia.
Qed.

(** X13: [groupMessagesByDate] loses, adds and reorders no message: with
    the separators left out, its result is its argument; and it has at
    most one separator per message. *)
Theorem groupMessagesByDate_keeps_messages (ms : list Message) :
  messages_of (groupMessagesByDate ms) = ms
  /\ length ms <= length (groupMessagesByDate ms) <= 2 * length ms.
Proof.
  rewrite groupMessagesByDate_grouped.
  split; [apply messages_of_grouped | apply grouped_length].
Qed.

Lemma separator_then_message prev ms pre d post :
  grouped_after prev ms = pre ++ ItemSeparator d :: post ->
  exists m post',
    post = ItemMessage m :: post'
    /\ separator_date d = message_timestamp m
    /\ In m ms.
Proof.
  revert prev pre. induction ms as [|m ms IH]; intros prev pre E.
  - destruct pre; discriminate E.
  - cbn [Timestamp.grouped_after] in E.
    assert (Tail : forall pre',
               ItemMessage m :: grouped_after (Some m) ms
               = pre' ++ ItemSeparator d :: post ->
               exists m' post',
                 post = ItemMessage m' :: post'
                 /\ separator_date d = message_timestamp m' /\ In m' (m :: ms)).
    { intros pre' E'. destruct pre' as [|x pre']; [discriminate E'|].
      injection E' as _ E'. destruct (IH _ _ E') as (m' & post' & ? & ? & ?).
      exists m', post'. repeat split; [assumption | assumption | right; assumption]. }
    assert (Head : [separator_of m] ++ ItemMessage m :: grouped_after (Some m) ms
                   = pre ++ ItemSeparator d :: post ->
                   exists m' post',
                     post = ItemMessage m' :: post'
                     /\ separator_date d = message_timestamp m' /\ In m' (m :: ms)).
    { intros E'. destruct pre as [|x pre].
      - injection E' as <- <-. exists m. eexists.
        split; [reflexivity|]. split; [reflexivity | left; reflexivity].
      - injection E' as _ E'. exact (Tail _ E'). }
    destruct prev as [p|]; [|exact (Head E)].
    destruct (isSameDay (message_timestamp m) (message_timestamp p));
      [exact (Tail _ E) | exact (Head E)].
Qed.

(** X14: in the result of [groupMessagesByDate] every separator is
    directly followed by a message of the input, and carries the timestamp
    of that message: no separator ends the sequence and no two separators
    are adjacent. *)
Theorem groupMessagesByDate_separator_announces (ms : list Message) pre d post :
  groupMessagesByDate ms = pre ++ ItemSeparator d :: post ->
  exists m post',
    post = ItemMessage m :: post'
    /\ separator_date d = message_timestamp m
    /\ In m ms.
Proof.
  rewrite groupMessagesByDate_grouped. apply separator_then_message.
Qed.

Lemma grouped_same_day p ms :
  (forall a b, In a (p :: ms) -> In b (p :: ms) ->
               isSameDay (message_timestamp a) (message_timestamp b) = true) ->
  grouped_after (Some p) ms = map ItemMessage ms.
Proof.
  revert p. induction ms as [|m ms IH]; intros p H; [reflexivity|].
  cbn [Timestamp.grouped_after map].
  rewrite (H m p) by (simpl; auto). cbn [app]. f_equal.
  apply IH. intros a b Ha Hb. apply H; right; assumption.
Qed.

(** X15: when all messages of the list are on the same day, the result is
    one separator, for the first message, followed by the messages. *)
Theorem groupMessagesByDate_one_day (m : Message) (ms : list Message) :
  (forall a b, In a (m :: ms) -> In b (m :: ms) ->
               isSameDay (message_timestamp a) (message_timestamp b) = true) ->
  groupMessagesByDate (m :: ms) = separator_of m :: map ItemMessage (m :: ms).
Proof.
  intros H. rewrite groupMessagesByDate_grouped.
  cbn [Timestamp.grouped_after map app]. do 2 f_equal.
  apply grouped_same_day, H.
Qed.

End GroupingShape.

(** ** addMessage over time, and the composer *)

Section AppendOnly.

Import Store.
Local Open Scope list_scope.

Lemma getChannelMessages_stored st k ms :
  getChannelMessages st k = MessageList ms -> ms = stored_messages st k.
Proof.
  unfold getChannelMessages, stored_messages.
  destruct (messages st !! k); [intros [= ->]; reflexivity|].
  destruct (inherited k); [discriminate | intros [= <-]; reflexivity].
Qed.

(** What one call leaves: the state as it was, the state with the error
    set, or the state with one message appended to the channel's list. *)
Lemma apply_add_cases st c :
  apply_add st c = st
  \/ apply_add st c = set_error (Some invalid_content_error) st
  \/ (validateMessageContent (data_content (call_data c)) = true
      /\ exists m,
          message_content m = Str.trim (data_content (call_data c))
          /\ apply_add st c
             = set_messages
                 (<[call_channelId c :=
                      stored_messages st (call_channelId c) ++ [m]]> (messages st))
                 None st).
Proof.
  unfold apply_add, addMessage.
  destruct (validateMessageContent (data_content (call_data c))) eqn:V; cbn [negb];
    [|right; left; reflexivity].
  destruct (getChannelMessages st (call_channelId c)) as [ms|name] eqn:G;
    [|left; reflexivity].
  right. right. split; [reflexivity|].
  apply getChannelMessages_stored in G. subst ms. eexists. split; [|reflexivity].
  reflexivity.
Qed.

Lemma apply_add_extends st c ch :
  stored_messages st ch `prefix_of` stored_messages (apply_add st c) ch.
Proof.
  destruct (apply_add_cases st c) as [-> | [-> | (_ & m & _ & ->)]];
    [reflexivity | reflexivity |].
  unfold stored_messages at 2. cbn [messages set_messages].
  destruct (decide (call_channelId c = ch)) as [->|Hne].
  - rewrite lookup_insert_eq. cbn. apply prefix_app_r. reflexivity.
  - rewrite lookup_insert_ne by exact Hne. reflexivity.
Qed.

Lemma apply_add_frame st c :
  channels (apply_add st c) = channels st
  /\ activeChannelId (apply_add st c) = activeChannelId st
  /\ theme (apply_add st c) = theme st
  /\ sidebarOpen (apply_add st c) = sidebarOpen st
  /\ searchQuery (apply_add st c) = searchQuery st.
Proof.
  destruct (apply_add_cases st c) as [-> | [-> | (_ & m & _ & ->)]];
    repeat split.
Qed.

(** X16: message lists only grow at their end: after any sequence of calls
    of [addMessage], accepted, rejected or thrown, the messages the store
    held for a channel are still there, in the same order, at the start of
    its list; channels, active channel, theme, sidebar flag and query are
    untouched. *)
Theorem addMessage_append_only (calls : list AddCall) st ch :
  stored_messages st ch `prefix_of` stored_messages (run_adds calls st) ch
  /\ channels (run_adds calls st) = channels st
  /\ activeChannelId (run_adds calls st) = activeChannelId st
  /\ theme (run_adds calls st) = theme st
  /\ sidebarOpen (run_adds calls st) = sidebarOpen st
  /\ searchQuery (run_adds calls st) = searchQuery st.
Proof.
  revert st. induction calls as [|c calls IH]; intros st.
  - split; [reflexivity | repeat split].
  - cbn [run_adds fold_left]. fold (run_adds calls (apply_add st c)).
    destruct (IH (apply_add st c)) as (P & C & A & T & S & Q).
    destruct (apply_add_frame st c) as (C' & A' & T' & S' & Q').
    split.
    { etransitivity; [|exact P]. apply apply_add_extends. }
    repeat split; congruence.
Qed.

Lemma validate_content_ok content :
  validateMessageContent content = true ->
  Str.trim (Str.trim content) = Str.trim content
  /\ (0 < String.length (Str.trim content) <= 2000)%nat.
Proof.
  intros V. apply validateMessageContent_spec in V as [P L].
  split; [apply trim_idem|]. pose proof (trim_length content). lia.
Qed.

Lemma apply_add_contents_ok st c :
  all_contents_ok st -> all_contents_ok (apply_add st c).
Proof.
  intros H.
  destruct (apply_add_cases st c) as [-> | [-> | (V & m & Cm & ->)]];
    [exact H | exact H |].
  intros ch ms m'. cbn [messages set_messages].
  destruct (decide (call_channelId c = ch)) as [->|Hne].
  - rewrite lookup_insert_eq. intros [= <-]. rewrite in_app_iff.
    intros [Hin | [<- | []]].
    + unfold stored_messages in Hin.
      destruct (messages st !! ch) as [old|] eqn:E; cbn in Hin.
      * exact (H _ old m' E Hin).
      * destruct Hin.
    + unfold content_ok. rewrite Cm. apply validate_content_ok, V.
  - rewrite lookup_insert_ne by exact Hne. apply H.
Qed.

(** X17: the store keeps the invariant of message contents: if every
    stored content is trimmed, not empty and at most 2000 characters long,
    this is still so after any sequence of calls of [addMessage]. *)
Theorem addMessage_keeps_contents_ok (calls : list AddCall) st :
  all_contents_ok st -> all_contents_ok (run_adds calls st).
Proof.
  revert st. induction calls as [|c calls IH]; intros st H; [exact H|].
  cbn [run_adds fold_left]. apply IH. apply apply_add_contents_ok, H.
Qed.

Lemma slice_to_length n value : (String.length (Composer.slice_to n value) <= n)%nat.
Proof.
  revert value. induction n as [|n IH]; intros [|c r]; simpl; try lia.
  specialize (IH r). lia.
Qed.

Lemma handleInputChange_length value :
  (String.length (Composer.handleInputChange value) <= 2000)%nat.
Proof.
  unfold Composer.handleInputChange, Composer.MAX_CHARACTERS.
  destruct (String.length value <=? 2000)%nat eqn:E.
  - apply Nat.leb_le, E.
  - apply slice_to_length.
Qed.

(** X18: whatever is typed into the composer, sending it to a channel
    whose messages read as a list never makes the store report invalid
    content: when the text is blank or the composer disabled nothing is
    sent and store and text stay as they are; otherwise the store accepts
    the text without the white space around it, appends it for the user
    current-user, clears the error, and the composer is emptied. *)
Theorem composer_sends_valid_content
    (typed newId : string) (now : Z) (channelId : string) (disabled : bool)
    st (ms : list Message) :
  getChannelMessages st channelId = MessageList ms ->
  let message := Composer.handleInputChange typed in
  (Spec.blank message \/ disabled = true ->
   Composer.sendMessage newId now channelId disabled message st = inr (message, st))
  /\ (~ Spec.blank message -> disabled = false ->
      exists st' m,
        Composer.sendMessage newId now channelId disabled message st = inr ("", st')
        /\ error st' = None
        /\ getChannelMessages st' channelId = MessageList (ms ++ [m])
        /\ Spec.trimmed_core message (message_content m)
        /\ (0 < String.length (message_content m) <= 2000)%nat
        /\ message_userId m = "current-user"
        /\ message_type m = Text).
Proof.
  intros G message. unfold Composer.sendMessage. split.
  - intros [B | ->].
    + apply blank_core in B. rewrite B. reflexivity.
    + rewrite orb_true_r. reflexivity.
  - intros NB ->. rewrite orb_false_r.
    assert (T : Str.trim message <> "").
    { intros E. apply NB, blank_core, E. }
    destruct (Str.trim message) as [|c r] eqn:Et; [congruence|]. cbn [Str.truthy negb].
    rewrite <- Et.
    assert (L : (0 < String.length (Str.trim message) <= 2000)%nat).
    { pose proof (trim_length message) as L1.
      pose proof (handleInputChange_length typed) as L2. fold message in L2.
      rewrite Et in *. simpl in *. lia. }
    assert (V : validateMessageContent (Str.trim message) = true).
    { apply validateMessageContent_spec. rewrite trim_idem.
      pose proof (trim_length (Str.trim message)). lia. }
    unfold addMessage. cbn [data_content]. rewrite V, G. cbn [negb].
    eexists. eexists. split; [reflexivity|]. split; [reflexivity|].
    split.
    { unfold getChannelMessages. cbn [messages set_messages].
      rewrite lookup_insert_eq. reflexivity. }
    cbn [message_content message_userId message_type]. rewrite trim_idem.
    split; [apply trim_is_core|]. split; [exact L|]. split; reflexivity.
Qed.

End AppendOnly.

Lemma composer_sends_valid_content_witness :
  exists st' m,
    Composer.sendMessage "msg-1" 0 "general" false
      (Composer.handleInputChange "  hello  ") Store.initial_state = inr ("", st')
    /\ error st' = None
    /\ Store.getChannelMessages st' "general" = Store.MessageList ([] ++ [m])%list
    /\ message_content m = "hello".
Proof.
  destruct (composer_sends_valid_content "  hello  " "msg-1" 0 "general" false
              Store.initial_state [] eq_refl) as [_ S].
  destruct S as (st' & m & E & Er & G & C & _); [|reflexivity|].
  - intros B. apply blank_core in B. vm_compute in B. discriminate B.
  - exists st', m. split; [exact E|]. split; [exact Er|]. split; [exact G|].
    symmetry. apply (core_is_trim _ _ C).
Defined.

Lemma addMessage_keeps_contents_ok_witness :
  all_contents_ok
    (run_adds [mkAddCall "msg-1" 0 "general" (mkMessageData "u1" "  hi  " Text);
               mkAddCall "msg-2" 1 "general" (mkMessageData "u1" "   " Text)]
              Store.initial_state).
Proof.
  apply addMessage_keeps_contents_ok.
  intros ch ms m E. unfold Store.initial_state in E. cbn [messages] in E.
  rewrite lookup_empty in E. discriminate E.
Defined.

(** ** Identifiers *)

Section Identifiers.

Lemma channel_char_is_user_char c :
  isChannelIdChar c = true -> isUserIdChar c = true.
Proof.
  destruct c as [b0 b1 b2 b3 b4 b5 b6 b7].
  destruct b0, b1, b2, b3, b4, b5, b6, b7; vm_compute; congruence.
Qed.

Lemma user_char_lowered c :
  isUserIdChar c = true -> isChannelIdChar (Char.toLowerCase c) = true.
Proof.
  destruct c as [b0 b1 b2 b3 b4 b5 b6 b7].
  destruct b0, b1, b2, b3, b4, b5, b6, b7; vm_compute; congruence.
Qed.

Lemma channel_char_plain c :
  isChannelIdChar c = true ->
  Char.isWhiteSpace c = false /\ Char.toLowerCase c = c.
Proof.
  destruct c as [b0 b1 b2 b3 b4 b5 b6 b7].
  destruct b0, b1, b2, b3, b4, b5, b6, b7; vm_compute; split; congruence.
Qed.

Lemma toLowerCase_length s : String.length (Str.toLowerCase s) = String.length s.
Proof. induction s as [|c s IH]; simpl; [reflexivity | rewrite IH; reflexivity]. Qed.

Lemma test_class_plus_mono (class class' : ascii -> bool) (f : ascii -> ascii) s :
  (forall c, class c = true -> class' (f c) = true) ->
  test_class_plus class s = true ->
  test_class_plus class'
    ((fix map (s : string) : string :=
        match s with
        | EmptyString => EmptyString
        | String c r => String (f c) (map r)
        end) s) = true.
Proof.
  intros Hc. unfold test_class_plus. rewrite !andb_true_iff. intros [T A]. split.
  - destruct s; [discriminate T | reflexivity].
  - clear T. induction s as [|c s IH]; [reflexivity|].
    simpl in A |- *. apply andb_true_iff in A as [A1 A2].
    rewrite (Hc c A1). cbn. apply IH, A2.
Qed.

Lemma all_plain_trimStart s :
  forallb isChannelIdChar (list_ascii_of_string s) = true -> Str.trimStart s = s.
Proof.
  destruct s as [|c s]; [reflexivity|]. simpl. intros A.
  apply andb_true_iff in A as [A _].
  destruct (channel_char_plain c A) as [-> _]. reflexivity.
Qed.

Lemma all_plain_trimEnd s :
  forallb isChannelIdChar (list_ascii_of_string s) = true -> Str.trimEnd s = s.
Proof.
  induction s as [|c s IH]; [reflexivity|]. simpl. intros A.
  apply andb_true_iff in A as [A1 A2]. rewrite (IH A2).
  destruct s; [|reflexivity].
  destruct (channel_char_plain c A1) as [-> _]. reflexivity.
Qed.

Lemma all_plain_lower s :
  forallb isChannelIdChar (list_ascii_of_string s) = true -> Str.toLowerCase s = s.
Proof.
  induction s as [|c s IH]; [reflexivity|]. simpl. intros A.
  apply andb_true_iff in A as [A1 A2]. rewrite (IH A2).
  destruct (channel_char_plain c A1) as [_ ->]. reflexivity.
Qed.

(** X19: an identifier that [validateChannelId] accepts is also accepted by
    [validateUserId]; it has between 2 and 50 characters and is left as it
    is by [trim] and by [toLowerCase]. *)
Theorem validateChannelId_canonical (id : string) :
  validateChannelId id = true ->
  validateUserId id = true
  /\ (2 <= String.length id <= 50)%nat
  /\ Str.trim id = id
  /\ Str.toLowerCase id = id.
Proof.
  unfold validateChannelId, validateUserId. rewrite !andb_true_iff.
  intros [[C L1] L2]. split; [|split; [|split]].
  - repeat split; [|exact L1|exact L2].
    apply (test_class_plus_mono isChannelIdChar isUserIdChar (fun c => c)) in C;
      [|exact channel_char_is_user_char].
    replace id with
      ((fix map (s : string) : string :=
          match s with
          | EmptyString => EmptyString
          | String c r => String c (map r)
          end) id) at 1; [exact C|].
    clear. induction id as [|c s IH]; [reflexivity | rewrite IH; reflexivity].
  - apply Nat.leb_le in L1, L2. lia.
  - unfold test_class_plus in C. apply andb_true_iff in C as [_ A].
    unfold Str.trim. rewrite (all_plain_trimStart id A). apply all_plain_trimEnd, A.
  - unfold test_class_plus in C. apply andb_true_iff in C as [_ A].
    apply all_plain_lower, A.
Qed.

(** X20: the lower-case form of an identifier that [validateUserId]
    accepts is accepted by [validateChannelId]. *)
Theorem validateUserId_lowered (id : string) :
  validateUserId id = true -> validateChannelId (Str.toLowerCase id) = true.
Proof.
  unfold validateChannelId, validateUserId. rewrite !andb_true_iff.
  intros [[C L1] L2]. rewrite toLowerCase_length. repeat split; [|exact L1|exact L2].
  exact (test_class_plus_mono isUserIdChar isChannelIdChar Char.toLowerCase id
           user_char_lowered C).
Qed.

End Identifiers.

Lemma validateChannelId_canonical_witness :
  validateUserId "project-alpha" = true
  /\ (2 <= String.length "project-alpha" <= 50)%nat
  /\ Str.trim "project-alpha" = "project-alpha"
  /\ Str.toLowerCase "project-alpha" = "project-alpha".
Proof. apply (validateChannelId_canonical "project-alpha"). reflexivity. Defined.

Lemma validateUserId_lowered_witness :
  validateChannelId (Str.toLowerCase "User-Alice_01") = true.
Proof. apply (validateUserId_lowered "User-Alice_01"). reflexivity. Defined.

(** ** Highlighting and matching *)

Section Matching.

Import RegExp Search.

Lemma occurs_at_same_text t s m rest :
  occurs_at t s m rest <-> s = m ++ rest /\ Spec.same_text m t.
Proof. apply occurs_at_spec. Qed.

(** The test of a pattern that is a sequence of characters, with the [i]
    flag, finds the texts that mention the sequence. *)
Lemma test_i_mentions pat s : test_i pat s = true <-> mentions s pat.
Proof.
  unfold mentions. induction s as [|c s IH].
  - simpl. destruct (match_at pat "") as [[m rest]|] eqn:M.
    + split; [intros _|reflexivity].
      apply match_at_occurs, occurs_at_same_text in M as [E C].
      exists "", m, rest. split; [exact E | exact C].
    + split; [discriminate|]. intros (pre & m & post & E & C).
      destruct pre; [|discriminate E]. simpl in E.
      assert (O : occurs_at pat "" m post)
        by (apply occurs_at_same_text; split; assumption).
      apply match_at_occurs in O. congruence.
  - cbn [test_i]. destruct (match_at pat (String c s)) as [[m rest]|] eqn:M.
    + split; [intros _|reflexivity].
      apply match_at_occurs, occurs_at_same_text in M as [E C].
      exists "", m, rest. split; [exact E | exact C].
    + rewrite IH. split.
      * intros (pre & m & post & -> & C). exists (String c pre), m, post.
        split; [reflexivity | exact C].
      * intros (pre & m & post & E & C). destruct pre as [|c' pre].
        -- simpl in E.
           assert (O : occurs_at pat (String c s) m post)
             by (apply occurs_at_same_text; split; assumption).
           apply match_at_occurs in O. congruence.
        -- injection E as -> ->. exists pre, m, post. split; [reflexivity | exact C].
Qed.

Lemma replace_no_match t s :
  test_i t s = false -> replace_loop t mark 0 s = s.
Proof.
  induction s as [|c s IH]; cbn [test_i replace_loop].
  - destruct (match_at t "") as [[m rest]|]; [discriminate | reflexivity].
  - destruct (match_at t (String c s)) as [[m rest]|]; [discriminate|].
    intros H. rewrite (IH H). reflexivity.
Qed.

Lemma mark_length m :
  String.length (mark m) = (String.length m + 54)%nat.
Proof.
  unfold mark. rewrite !string_length_app.
  change (String.length mark_open) with 47%nat.
  change (String.length mark_close) with 7%nat. lia.
Qed.

Lemma highlighted_length t text out :
  highlighted t text out -> (String.length text <= String.length out)%nat.
Proof.
  induction 1 as [| text m rest out O _ IH | c text out _ _ IH];
    [simpl; lia | | simpl; lia].
  apply occurs_at_split in O as [-> _].
  rewrite !string_length_app, mark_length. lia.
Qed.

Lemma highlighted_same_length t text out :
  t <> "" ->
  highlighted t text out ->
  String.length out = String.length text ->
  test_i t text = false.
Proof.
  intros Ht. induction 1 as [| text m rest out O R IH | c text out N _ IH]; intros L.
  - destruct t; [congruence | reflexivity].
  - exfalso. apply highlighted_length in R.
    apply occurs_at_split in O as [-> _].
    rewrite !string_length_app, mark_length in L. lia.
  - cbn [test_i]. destruct (match_at t (String c text)) as [[m rest]|] eqn:M.
    + apply match_at_occurs in M. destruct (N _ _ M).
    + apply IH. simpl in L. lia.
Qed.

(** X21: for a term that is not blank, [highlightSearchTerm] gives the text
    back unchanged exactly when the text does not mention the trimmed
    term; highlighting never shortens the text. *)
Theorem highlightSearchTerm_unchanged_iff (text term : string) :
  ~ Spec.blank term ->
  (highlightSearchTerm text term = Some text <-> ~ mentions text (Str.trim term))
  /\ (forall out, highlightSearchTerm text term = Some out ->
                  (String.length text <= String.length out)%nat).
Proof.
  intros W.
  assert (Ht : Str.trim term <> "").
  { intros E. apply W, blank_core, E. }
  destruct (highlightSearchTerm_trimmed text term Ht) as (out & E & H & _).
  apply highlighted_spec in H.
  rewrite E. split.
  - rewrite <- test_i_mentions. split.
    + intros [= ->]. rewrite (highlighted_same_length _ _ _ Ht H eq_refl).
      discriminate.
    + intros N. apply not_true_is_false in N.
      rewrite highlightSearchTerm_eq in E.
      destruct (Str.trim term) as [|a t] eqn:Et; [congruence|].
      destruct text as [|c r]; cbn [Str.truthy negb orb] in E; [symmetry; exact E|].
      unfold replace_all in E. rewrite (replace_no_match _ _ N) in E.
      injection E as <-. reflexivity.
  - intros out' [= <-]. exact (highlighted_length _ _ _ H).
Qed.

End Matching.

Lemma highlightSearchTerm_unchanged_iff_witness :
  Search.highlightSearchTerm "Hello world" " xyz " = Some "Hello world"
  <-> ~ mentions "Hello world" (Str.trim " xyz ").
Proof.
  refine (proj1 (highlightSearchTerm_unchanged_iff "Hello world" " xyz " _)).
  intros B. apply blank_core in B. vm_compute in B. discriminate B.
Defined.

(** ** Keyboard shortcuts *)

Section ShortcutKeys.

Import Shortcuts.

(** X22: which events [isSearchShortcut] takes for which shortcut: the
    navigation shortcuts answer to the keys named Down and Up, not to
    ArrowDown and ArrowUp. *)
Theorem isSearchShortcut_keys (event : KeyboardEvent) :
  (isSearchShortcut event CLEAR = true <-> event_key event = "Escape")
  /\ (isSearchShortcut event SELECT = true <-> event_key event = "Enter")
  /\ (isSearchShortcut event NAVIGATE_DOWN = true <-> event_key event = "Down")
  /\ (isSearchShortcut event NAVIGATE_UP = true <-> event_key event = "Up")
  /\ (isSearchShortcut event FOCUS = true
      <-> (event_ctrlKey event = true \/ event_metaKey event = true)
          /\ event_code event = "KeyK")
  /\ (event_key event = "ArrowDown" ->
      isSearchShortcut event NAVIGATE_DOWN = false)
  /\ (event_key event = "ArrowUp" ->
      isSearchShortcut event NAVIGATE_UP = false).
Proof.
  unfold isSearchShortcut.
  change (replace_first "Arrow" "" (SEARCH_SHORTCUTS SELECT)) with "Enter".
  change (replace_first "Arrow" "" (SEARCH_SHORTCUTS NAVIGATE_DOWN)) with "Down".
  change (replace_first "Arrow" "" (SEARCH_SHORTCUTS NAVIGATE_UP)) with "Up".
  cbn [SEARCH_SHORTCUTS].
  rewrite !String.eqb_eq, andb_true_iff, orb_true_iff, String.eqb_eq.
  repeat split; try tauto.
  - intros ->. reflexivity.
  - intros ->. reflexivity.
Qed.

End ShortcutKeys.

(** ** Classification of errors *)

Section ClassificationMore.

Import ErrorHandling Severity.

Lemma some_test_mentions patterns message :
  some_test patterns message = true
  <-> exists w, In w patterns /\ mentions message w.
Proof.
  unfold some_test. rewrite existsb_exists.
  split; intros (w & I & H); exists w; (split; [exact I|]);
    apply test_i_mentions; exact H.
Qed.

(** X23: an error is a network error exactly when it is named NetworkError
    or TypeError or its message mentions, in any case of letters, one of
    network, fetch, timeout, connection, offline; and a validation error
    exactly when it is named ValidationError or its message mentions one of
    validation, invalid, required, format. *)
Theorem classification_by_name_or_message (e : JSError) :
  (isNetworkError e = true
   <-> error_name e = "NetworkError" \/ error_name e = "TypeError"
       \/ exists w, In w ["network"; "fetch"; "timeout"; "connection"; "offline"]
                    /\ mentions (error_message e) w)
  /\ (isValidationError e = true
      <-> error_name e = "ValidationError"
          \/ exists w, In w ["validation"; "invalid"; "required"; "format"]
                       /\ mentions (error_message e) w).
Proof.
  unfold isNetworkError, isValidationError.
  rewrite !orb_true_iff, !String.eqb_eq, !some_test_mentions.
  split; tauto.
Qed.

(** X24: validation comes first for retries and network comes first for
    severity: a validation error is never retryable, an error of low
    severity is never retryable, every network error has medium severity,
    and a retryable error is a network error or one whose message mentions
    a retryable pattern. *)
Theorem classification_consistency (e : JSError) :
  (isValidationError e = true -> isRetryableError e = false)
  /\ (getErrorSeverity e = LOW -> isRetryableError e = false)
  /\ (isNetworkError e = true <-> getErrorSeverity e = MEDIUM)
  /\ (isRetryableError e = true ->
      isValidationError e = false
      /\ (isNetworkError e = true
          \/ exists w,
              In w ["temporary"; "rate limit"; "service unavailable";
                    "internal server error"]
              /\ mentions (error_message e) w)).
Proof.
  unfold isRetryableError, getErrorSeverity.
  destruct (isValidationError e) eqn:V, (isNetworkError e) eqn:N;
    (split; [intros H; first [reflexivity | discriminate H]|]);
    (split; [intros H; first [reflexivity | discriminate H]|]);
    (split; [split; intros H; first [reflexivity | discriminate H]|]);
    intros R; try discriminate R;
    (split; [reflexivity|]).
  - left. reflexivity.
  - right. apply some_test_mentions in R. exact R.
Qed.

End ClassificationMore.

Lemma classification_consistency_witness :
  let e := ErrorHandling.mkError "TypeError" "invalid response format" in
  ErrorHandling.isNetworkError e = true
  /\ Severity.getErrorSeverity e = Severity.MEDIUM
  /\ ErrorHandling.isRetryableError e = false.
Proof.
  destruct (classification_consistency
              (ErrorHandling.mkError "TypeError" "invalid response format"))
    as (V & _ & [N _] & _).
  split; [reflexivity|]. split; [apply N; reflexivity | apply V; reflexivity].
Defined.

(** ** The channel route *)

Section Route.

Import Router.

(** X25: the channel route activates only channels that are loaded, and
    only once loading is over; for an identifier that no loaded channel has
    it navigates to the not-found page when some channel is loaded and
    does nothing otherwise. *)
Theorem channelRouteEffect_guard (channelId : option string) st :
  (forall id, channelRouteEffect channelId st = Activate id ->
              channelId = Some id /\ isLoading st = false
              /\ exists channel, In channel (channels st) /\ channel_id channel = id)
  /\ (channelRouteEffect channelId st = NavigateNotFound ->
      isLoading st = false /\ channels st <> []
      /\ exists id, channelId = Some id
                    /\ forall channel, In channel (channels st) -> channel_id channel <> id).
Proof.
  unfold channelRouteEffect.
  destruct channelId as [cid|]; [|split; [intros id|]; discriminate].
  destruct (negb (Str.truthy cid) || isLoading st) eqn:G;
    [split; [intros id|]; discriminate|].
  apply orb_false_elim in G as [_ L].
  destruct (existsb (fun channel => String.eqb (channel_id channel) cid) (channels st))
    eqn:X.
  - split; [|discriminate]. intros id [= <-].
    apply existsb_exists in X as (channel & I & E). apply String.eqb_eq in E.
    repeat split; [exact L|]. exists channel. split; assumption.
  - destruct (0 <? length (channels st))%nat eqn:Z;
      (split; [intros id; discriminate|]); [|discriminate].
    intros _. split; [exact L|]. split.
    + destruct (channels st); [discriminate Z | discriminate].
    + exists cid. split; [reflexivity|]. intros channel I E.
      assert (existsb (fun channel => String.eqb (channel_id channel) cid)
                      (channels st) = true).
      { apply existsb_exists. exists channel. split; [exact I|].
        apply String.eqb_eq, E. }
      congruence.
Qed.

End Route.
(** ** createRetryHandler *)

Section RetryHandler.

Import ErrorHandling Retry.
Local Open Scope list_scope.

Context {T : Type}.
Variable operation : nat -> JSError + T.
Variable config : RetryConfig.

Local Abbreviation retry_loop := (retry_loop operation config).
Local Abbreviation retryHandler := (retryHandler operation config).
Local Abbreviation waitTime := (waitTime config).





(** X28: an error that is not retryable ends the run at once: when the
    first invocation fails with such an error, the handler rejects with it
    after that one invocation, without calling [onRetry] and without
    waiting. *)
Theorem retryHandler_gives_up (e : JSError) :
  operation 0 = inl e ->
  isRetryableError e = false ->
  retryHandler = Some (mkRun (Rejected e) 1 [] []).
Proof.
  intros Oe Nr. unfold Retry.retryHandler. cbn [Retry.retry_loop Nat.leb].
  rewrite Oe, Nr. rewrite orb_true_r. reflexivity.
Qed.

End RetryHandler.



Lemma retryHandler_gives_up_witness :
  Retry.retryHandler
    (fun _ => inl (ErrorHandling.mkError "ValidationError" "name is required")
              : ErrorHandling.JSError + nat)
    Retry.default_config
  = Some (Retry.mkRun
            (Retry.Rejected (ErrorHandling.mkError "ValidationError" "name is required"))
            1 [] []).
Proof.
  apply (retryHandler_gives_up
           (fun _ => inl (ErrorHandling.mkError "ValidationError" "name is required"))
           Retry.default_config); reflexivity.
Defined.

(** ** Instances *)

Lemma getTheme_reads_or_defaults_witness :
  fst (Storage.getTheme dark_store) = inr Dark.
Proof.
  refine (proj1 (getTheme_reads_or_defaults dark_store _) Dark _).
  - intros n. reflexivity.
  - reflexivity.
Defined.

Lemma setTheme_getTheme_witness :
  fst (Storage.bind (Storage.setTheme System) (fun _ => Storage.getTheme)
         working_store) = inr System.
Proof.
  apply (setTheme_getTheme working_store System). intros n. reflexivity.
Defined.

Lemma getSettings_reads_or_defaults_witness :
  fst (Storage.getSettings parse_ghost ghost_store)
  = inr (Storage.mkSettings None (Some "ghost")).
Proof.
  rewrite (getSettings_reads_or_defaults parse_ghost ghost_store);
    [reflexivity | intros n; reflexivity].
Defined.

Lemma setSettings_merges_witness :
  fst (Storage.bind
         (Storage.setSettings parse_samples stringify_plain
            (Storage.mkSettings (Some false) None))
         (fun _ => Storage.getSettings parse_samples) ghost_store)
  = inr (Storage.mkSettings (Some false) (Some "ghost")).
Proof.
  refine (proj1 (proj2 (setSettings_merges parse_samples stringify_plain ghost_store
                          (Storage.mkSettings (Some false) None) _ _ _))).
  - intros n. reflexivity.
  - discriminate.
  - reflexivity.
Defined.

Lemma clearAll_resets_witness :
  fst (Storage.bind Storage.clearAll (fun _ => Storage.getTheme) dark_store)
  = inr Light
  /\ fst (Storage.bind Storage.clearAll
            (fun _ => Storage.getSettings parse_ghost) dark_store)
     = inr Storage.empty_settings.
Proof.
  apply (clearAll_resets parse_ghost dark_store). intros n. reflexivity.
Defined.

Lemma setActiveChannel_survives_reload_witness :
  exists st' ls',
    Storage.bind
      (Store.setActiveChannel parse_samples stringify_plain "ghost" Store.initial_state)
      (fun _ => Store.loadMockData parse_samples [general_channel; tech_channel] ∅
                  Store.initial_state)
      working_store = (inr st', ls')
    /\ activeChannelId st' = Some "ghost".
Proof.
  apply (setActiveChannel_survives_reload parse_samples stringify_plain
           [general_channel; tech_channel] ∅ "ghost"
           Store.initial_state Store.initial_state working_store).
  - intros n. reflexivity.
  - discriminate.
  - discriminate.
  - reflexivity.
Defined.

Lemma toggleSidebar_keeps_last_channel_witness :
  exists settings,
    fst (Storage.bind
           (Store.toggleSidebar parse_samples stringify_plain Store.initial_state)
           (fun _ => Storage.getSettings parse_samples) ghost_store)
    = inr settings
    /\ Storage.settings_sidebarOpen settings = Some false
    /\ Storage.settings_lastActiveChannel settings = Some "ghost".
Proof.
  apply (toggleSidebar_keeps_last_channel parse_samples stringify_plain
           Store.initial_state ghost_store).
  - intros n. reflexivity.
  - discriminate.
  - reflexivity.
Defined.

Lemma toggleTheme_survives_reload_witness :
  exists st' ls',
    Storage.bind (Store.toggleTheme Store.initial_state)
      (fun _ => Store.initializeStore parse_ghost Store.initial_state)
      working_store = (inr st', ls')
    /\ theme st' = Dark.
Proof.
  apply (toggleTheme_survives_reload parse_ghost Store.initial_state
           Store.initial_state working_store).
  intros n. reflexivity.
Defined.

Lemma groupMessagesByDate_separator_announces_witness :
  exists m post',
    [Timestamp.ItemMessage morning_message; Timestamp.ItemMessage noon_message]
    = Timestamp.ItemMessage m :: post'
    /\ 1704103200000%Z = message_timestamp m
    /\ In m [morning_message; noon_message].
Proof.
  apply (groupMessagesByDate_separator_announces same_utc_day (fun _ => false)
           (fun _ => false) format_day_number
           [morning_message; noon_message] []
           (Timestamp.mkDateSeparator 1704103200000 "Monday, January 1, 2024")).
  reflexivity.
Defined.

Lemma groupMessagesByDate_one_day_witness :
  Timestamp.groupMessagesByDate same_utc_day (fun _ => false) (fun _ => false)
    format_day_number [morning_message; noon_message]
  = [Timestamp.ItemSeparator
       (Timestamp.mkDateSeparator 1704103200000 "Monday, January 1, 2024");
     Timestamp.ItemMessage morning_message; Timestamp.ItemMessage noon_message].
Proof.
  apply (groupMessagesByDate_one_day same_utc_day (fun _ => false) (fun _ => false)
           format_day_number morning_message [noon_message]).
  intros a b [<-|[<-|[]]] [<-|[<-|[]]]; reflexivity.
Defined.
